(** * Utf16FromUtf8: UTF-8 to UTF-16 conversion over the Win32 API

    A shallow embedding of [UnicodeConv.hpp].  The header holds one exception
    class, [Utf16FromUtf8ConversionError], and one function, [Utf16FromUtf8],
    which calls [::MultiByteToWideChar] twice (once to measure, once to fill)
    and reads [::GetLastError] after a call that returned 0.

    The two Win32 entry points are not part of the repository.  They are an
    interface here (the class [Win32]); the conversion function is written
    once, over any implementation of that interface, in a state-and-exception
    monad whose state is the part of the process the API can touch. *)

From Stdlib Require Import ZArith List Bool String Lia.
From Stdlib.Strings Require Import Byte.
Import ListNotations.

Local Open Scope Z_scope.

(** ** C++ and Win32 scalar types

    [char] is a [Byte.byte]; every integer type is a [Z] with the wrap-around
    of its conversions written out. *)

Definition int : Type := Z.           (* 32-bit signed, as on every Windows ABI *)
Definition size_t : Type := Z.        (* unsigned, [size_t_bits] wide *)
Definition UINT : Type := Z.
Definition DWORD : Type := Z.         (* 32-bit unsigned *)
Definition wchar_t : Type := Z.       (* 16-bit unsigned on Windows *)

Definition std_string : Type := list byte.
Definition std_wstring : Type := list wchar_t.

Definition size_t_bits : Z := 64.

(** [(std::numeric_limits<int>::max)()] *)
Definition numeric_limits_int_max : int := 2 ^ 31 - 1.

(** [static_cast<size_t>(x)] *)
Definition static_cast_size_t (x : Z) : size_t := x mod 2 ^ size_t_bits.

(** [static_cast<int>(x)]: the low 32 bits, read as two's complement. *)
Definition static_cast_int (x : Z) : int := (x + 2 ^ 31) mod 2 ^ 32 - 2 ^ 31.

(** [std::string::length()] and [std::string::empty()] *)
Definition length (s : std_string) : size_t := Z.of_nat (List.length s).

Definition empty (s : std_string) : bool :=
  match s with
  | [] => true
  | _ :: _ => false
  end.

(** ** Win32 constants (WinNls.h, WinError.h) *)

Definition CP_UTF8 : UINT := 65001.
Definition MB_ERR_INVALID_CHARS : DWORD := 8.
Definition ERROR_INVALID_PARAMETER : DWORD := 87.
Definition ERROR_INSUFFICIENT_BUFFER : DWORD := 122.
Definition ERROR_INVALID_FLAGS : DWORD := 1004.
Definition ERROR_NO_UNICODE_TRANSLATION : DWORD := 1113.

(** ** Exceptions

    What [Utf16FromUtf8] can throw: [std::overflow_error] from its own length
    guard, [Utf16FromUtf8ConversionError] (lines 29-55: a [std::runtime_error]
    with one more field, [m_errorCode]) after a failed API call, and
    [std::length_error], which [std::wstring::resize] raises when the count it
    is given exceeds [max_size()].  Running out of memory is not modelled. *)

Inductive exception : Type :=
| overflow_error (what : string)
| length_error (what : string)
| Utf16FromUtf8ConversionError (what : string) (m_errorCode : DWORD).

(** [Utf16FromUtf8ConversionError::ErrorCode()]: only that class has it. *)
Definition ErrorCode (e : exception) : option DWORD :=
  match e with
  | Utf16FromUtf8ConversionError _ code => Some code
  | overflow_error _ | length_error _ => None
  end.

(** The classes involved, and the direct base of each (the header gives
    [Utf16FromUtf8ConversionError : public std::runtime_error]; the others are
    the standard library's). *)
Inductive exception_class : Type :=
| std_exception
| std_logic_error
| std_runtime_error
| std_length_error
| std_overflow_error
| class_Utf16FromUtf8ConversionError.

Definition exception_class_eqb (a b : exception_class) : bool :=
  match a, b with
  | std_exception, std_exception
  | std_logic_error, std_logic_error
  | std_runtime_error, std_runtime_error
  | std_length_error, std_length_error
  | std_overflow_error, std_overflow_error
  | class_Utf16FromUtf8ConversionError, class_Utf16FromUtf8ConversionError => true
  | _, _ => false
  end.

Definition base_class (c : exception_class) : option exception_class :=
  match c with
  | std_exception => None
  | std_logic_error => Some std_exception
  | std_runtime_error => Some std_exception
  | std_length_error => Some std_logic_error
  | std_overflow_error => Some std_runtime_error
  | class_Utf16FromUtf8ConversionError => Some std_runtime_error
  end.

(** [derived_from depth c h]: [h] is [c] or one of its bases, at most
    [depth] steps up. *)
Fixpoint derived_from (depth : nat) (c h : exception_class) : bool :=
  exception_class_eqb c h ||
  match depth with
  | O => false
  | S depth' =>
      match base_class c with
      | Some b => derived_from depth' b h
      | None => false
      end
  end.

Definition dynamic_class (e : exception) : exception_class :=
  match e with
  | overflow_error _ => std_overflow_error
  | length_error _ => std_length_error
  | Utf16FromUtf8ConversionError _ _ => class_Utf16FromUtf8ConversionError
  end.

(** [catch (const h&)] matches a thrown [e] when [h] is the class of [e] or
    a base of it.  The hierarchy above is three levels deep. *)
Definition catches (h : exception_class) (e : exception) : bool :=
  derived_from 3 (dynamic_class e) h.

(** ** The monad: state of type [World], result or exception *)

Definition Eff (World A : Type) : Type := World -> (A + exception) * World.

Definition ret {World A} (a : A) : Eff World A :=
  fun w => (inl a, w).

Definition throw {World A} (e : exception) : Eff World A :=
  fun w => (inr e, w).

Definition bind {World A B} (m : Eff World A) (k : A -> Eff World B) : Eff World B :=
  fun w =>
    match m w with
    | (inl a, w') => k a w'
    | (inr e, w') => (inr e, w')
    end.

Declare Scope eff_scope.
Delimit Scope eff_scope with eff.
Notation "x <- m ;; k" := (bind m (fun x => k))
  (at level 61, m at next level, right associativity) : eff_scope.
Notation "' p <- m ;; k" := (bind m (fun x => let p := x in k))
  (at level 61, p pattern, m at next level, right associativity) : eff_scope.

(** ** The Win32 interface

    [MultiByteToWideChar CodePage dwFlags lpMultiByteStr cbMultiByte
    lpWideCharStr cchWideChar] returns its [int] result together with the
    contents of the destination buffer after the call ([lpWideCharStr] is
    [None] for [nullptr]; what comes back for the buffer is then ignored).
    [GetLastError] reads the calling thread's last-error code. *)

Class Win32 (World : Type) : Type := {
  MultiByteToWideChar :
    UINT -> DWORD -> std_string -> int -> option std_wstring -> int ->
    World -> (int * std_wstring) * World;
  GetLastError : World -> DWORD
}.

(** ** Utf16FromUtf8 (UnicodeConv.hpp, lines 62-140) *)

Definition too_long_message : string :=
  "Input string too long: size_t-length doesn't fit into int.".

Definition invalid_sequence_message : string :=
  "Invalid UTF-8 sequence found in input string.".

Definition length_failed_message : string :=
  "Cannot get result string length when converting from UTF-8 to UTF-16 (MultiByteToWideChar failed).".

Definition convert_failed_message : string :=
  "Cannot convert from UTF-8 to UTF-16 (MultiByteToWideChar failed).".

(** MSVC's message for [std::length_error] out of [basic_string]. *)
Definition string_too_long_message : string := "string too long".

Section Conversion.

Context {World : Type} {api : Win32 World}.

Definition call_MultiByteToWideChar
    (CodePage : UINT) (dwFlags : DWORD) (lpMultiByteStr : std_string)
    (cbMultiByte : int) (lpWideCharStr : option std_wstring) (cchWideChar : int)
  : Eff World (int * std_wstring) :=
  fun w =>
    let '(r, w') :=
      MultiByteToWideChar CodePage dwFlags lpMultiByteStr cbMultiByte
        lpWideCharStr cchWideChar w in
    (inl r, w').

Definition call_GetLastError : Eff World DWORD :=
  fun w => (inl (GetLastError w), w).

(** [utf16.resize(n)] with [n] an [int]: the argument is converted to
    [size_type]; a negative [n] becomes a count above [max_size()] and the
    call throws, otherwise the string is padded with [L'\0'] (or cut) to
    [n] elements. *)
Definition resize (s : std_wstring) (n : int) : Eff World std_wstring :=
  if n <? 0 then throw (length_error string_too_long_message)
  else
    let k := Z.to_nat n in
    ret (firstn k s ++ repeat 0 (k - List.length s)).

Definition Utf16FromUtf8 (utf8 : std_string) : Eff World std_wstring :=
  (* Result of the conversion *)
  let utf16 : std_wstring := [] in
  (* First, handle the special case of empty input string *)
  if empty utf8 then ret utf16
  else
    (* Safely fail if an invalid UTF-8 character sequence is encountered *)
    let kFlags := MB_ERR_INVALID_CHARS in
    if length utf8 >? static_cast_size_t numeric_limits_int_max then
      throw (overflow_error too_long_message)
    else
      let utf8Length := static_cast_int (length utf8) in
      (* Get the size of the destination UTF-16 string *)
      (measured <-
         call_MultiByteToWideChar CP_UTF8 kFlags utf8 utf8Length None 0 ;;
       let utf16Length := fst measured in
       if utf16Length =? 0 then
         error <- call_GetLastError ;;
         throw (Utf16FromUtf8ConversionError
                  (if error =? ERROR_NO_UNICODE_TRANSLATION
                   then invalid_sequence_message
                   else length_failed_message)
                  error)
       else
         (* Make room in the destination string for the converted bits *)
         utf16 <- resize utf16 utf16Length ;;
         (* Do the actual conversion from UTF-8 to UTF-16 *)
         filled <-
           call_MultiByteToWideChar CP_UTF8 kFlags utf8 utf8Length
             (Some utf16) utf16Length ;;
         let result := fst filled in
         let utf16 := snd filled in
         if result =? 0 then
           error <- call_GetLastError ;;
           throw (Utf16FromUtf8ConversionError
                    (if error =? ERROR_NO_UNICODE_TRANSLATION
                     then invalid_sequence_message
                     else convert_failed_message)
                    error)
         else ret utf16)%eff.

End Conversion.

Arguments Utf16FromUtf8 {World} api utf8 _.

(** ** The specification's vocabulary

    The specification names four kinds of failure.  The header has no such
    enumeration: there a kind is the class of the exception thrown and, for
    [Utf16FromUtf8ConversionError], the message it was built with (lines
    85-86, 104-108 and 130-134).  [error_kind] reads the kind off an
    exception that way. *)

Inductive ErrorKind : Type :=
| InputTooLarge
| InvalidUtf8Sequence
| MeasurementFailed
| ConversionFailed.

Definition error_kind (e : exception) : option ErrorKind :=
  match e with
  | overflow_error _ => Some InputTooLarge
  | length_error _ => None
  | Utf16FromUtf8ConversionError what _ =>
      if (what =? invalid_sequence_message)%string then Some InvalidUtf8Sequence
      else if (what =? length_failed_message)%string then Some MeasurementFailed
      else if (what =? convert_failed_message)%string then Some ConversionFailed
      else None
  end.

(** ** UTF-8 and UTF-16

    The header decodes nothing itself: it hands the bytes to
    [::MultiByteToWideChar].  What follows is the decoding the specification
    asks of that primitive, used below to build an implementation of the
    interface. *)

(** The value of a [char] read as [unsigned char]; zero-extended, it is the
    code unit of an ASCII character. *)
Definition byte_value (b : byte) : Z := Z.of_N (Byte.to_N b).

(** Modelled from the spec: a UTF-8 continuation byte, [10xxxxxx]; part of
    the decoder of the absent [::MultiByteToWideChar]. *)
Definition continuation (b : byte) : bool :=
  (0x80 <=? byte_value b) && (byte_value b <=? 0xBF).

(** Modelled from the spec: a Unicode scalar value, the only thing strict
    validation lets through (a code point up to U+10FFFF that is not a
    surrogate); part of the decoder of the absent [::MultiByteToWideChar]. *)
Definition scalar_value (cp : Z) : bool :=
  ((0 <=? cp) && (cp <? 0xD800)) || ((0xE000 <=? cp) && (cp <=? 0x10FFFF)).

(** Modelled from the spec: the strict decoding section 4.1 requires of the
    absent [::MultiByteToWideChar]: shortest form only (no overlong
    encoding), no surrogate, nothing above U+10FFFF, no truncated sequence.
    [None] when the bytes are not well-formed UTF-8. *)
Fixpoint decode_utf8 (s : std_string) : option (list Z) :=
  match s with
  | [] => Some []
  | b0 :: s1 =>
      let v0 := byte_value b0 in
      if v0 <? 0x80 then option_map (cons v0) (decode_utf8 s1)
      else if v0 <? 0xC2 then None
      else if v0 <? 0xE0 then
        match s1 with
        | b1 :: s2 =>
            let cp := (v0 - 0xC0) * 64 + (byte_value b1 - 0x80) in
            if continuation b1 then option_map (cons cp) (decode_utf8 s2)
            else None
        | [] => None
        end
      else if v0 <? 0xF0 then
        match s1 with
        | b1 :: b2 :: s3 =>
            let cp := (v0 - 0xE0) * 4096 + (byte_value b1 - 0x80) * 64
                      + (byte_value b2 - 0x80) in
            if continuation b1 && continuation b2
               && (0x800 <=? cp) && scalar_value cp
            then option_map (cons cp) (decode_utf8 s3)
            else None
        | _ => None
        end
      else if v0 <? 0xF5 then
        match s1 with
        | b1 :: b2 :: b3 :: s4 =>
            let cp := (v0 - 0xF0) * 262144 + (byte_value b1 - 0x80) * 4096
                      + (byte_value b2 - 0x80) * 64 + (byte_value b3 - 0x80) in
            if continuation b1 && continuation b2 && continuation b3
               && (0x10000 <=? cp) && (cp <=? 0x10FFFF)
            then option_map (cons cp) (decode_utf8 s4)
            else None
        | _ => None
        end
      else None
  end.

(** Modelled from the spec: the UTF-16 code units the absent
    [::MultiByteToWideChar] writes for one scalar value: the value itself in
    the basic plane, a surrogate pair above it. *)
Definition utf16_units (cp : Z) : std_wstring :=
  if cp <? 0x10000 then [cp]
  else [0xD800 + (cp - 0x10000) / 1024; 0xDC00 + (cp - 0x10000) mod 1024].

(** Modelled from the spec: the output of the absent [::MultiByteToWideChar]
    for a decoded input, one scalar value after the other. *)
Definition utf16_encode (cps : list Z) : std_wstring := flat_map utf16_units cps.

(** Modelled from the spec: what section 3 calls a fully valid UTF-16
    sequence: 16-bit code units, every surrogate in a high-then-low pair.
    The header has no such test; it is the property asked of the output. *)
Fixpoint well_formed_utf16 (ws : std_wstring) : bool :=
  match ws with
  | [] => true
  | u :: rest =>
      if ((0 <=? u) && (u <? 0xD800)) || ((0xE000 <=? u) && (u <=? 0xFFFF))
      then well_formed_utf16 rest
      else if (0xD800 <=? u) && (u <? 0xDC00) then
        match rest with
        | lo :: rest' =>
            (0xDC00 <=? lo) && (lo <? 0xE000) && well_formed_utf16 rest'
        | [] => false
        end
      else false
  end.

(** ** A strict implementation of the interface *)

(** The state the API touches: the thread's last-error code. *)
Record Thread : Type := { LastError : DWORD }.

Definition SetLastError (code : DWORD) (_ : Thread) : Thread :=
  {| LastError := code |}.

(** Modelled from the spec: [::MultiByteToWideChar], the conversion primitive
    of Windows, is not in the repository.  This is the primitive as sections
    4.1 and 7 of the specification describe its two uses, for the code page
    and flag the source passes ([CP_UTF8], [MB_ERR_INVALID_CHARS]): with no
    destination ([cchWideChar = 0]) it measures, returning the number of
    UTF-16 code units the input needs; with a destination it decodes into it
    and returns the number of units written; in both uses the validation is
    strict and a byte sequence that is not well-formed UTF-8 makes the call
    return 0 with the diagnostic "no valid Unicode translation".  A call that
    returns 0 sets the last-error code, any other leaves it alone.  Calls
    outside those two uses (another code page or flag, no input, a
    destination that is too small) return 0 with the code Windows documents
    for them; the source string must hold the [cbMultiByte] bytes the
    caller announces. *)
Definition strict_MultiByteToWideChar
    (CodePage : UINT) (dwFlags : DWORD) (lpMultiByteStr : std_string)
    (cbMultiByte : int) (lpWideCharStr : option std_wstring) (cchWideChar : int)
    (w : Thread) : (int * std_wstring) * Thread :=
  let buffer := match lpWideCharStr with Some b => b | None => [] end in
  let failed code := ((0, buffer), SetLastError code w) in
  if negb (CodePage =? CP_UTF8) then failed ERROR_INVALID_PARAMETER
  else if negb (dwFlags =? MB_ERR_INVALID_CHARS) then failed ERROR_INVALID_FLAGS
  else if (cbMultiByte <=? 0) || (cchWideChar <? 0)
          || (length lpMultiByteStr <? cbMultiByte)
  then failed ERROR_INVALID_PARAMETER
  else
    match decode_utf8 (firstn (Z.to_nat cbMultiByte) lpMultiByteStr) with
    | None => failed ERROR_NO_UNICODE_TRANSLATION
    | Some cps =>
        let units := utf16_encode cps in
        let needed := Z.of_nat (List.length units) in
        if cchWideChar =? 0 then ((needed, buffer), w)
        else
          match lpWideCharStr with
          | None => failed ERROR_INVALID_PARAMETER
          | Some b =>
              if (cchWideChar <? needed) || (Z.of_nat (List.length b) <? needed)
              then failed ERROR_INSUFFICIENT_BUFFER
              else ((needed, units ++ skipn (List.length units) b), w)
          end
    end.

#[export] Instance strict_Win32 : Win32 Thread := {
  MultiByteToWideChar := strict_MultiByteToWideChar;
  GetLastError := LastError
}.

(** ** Two faulty implementations, for the failure paths

    [refusing_Win32 code] fails every call with [code].
    [shrinking_Win32] measures like [strict_Win32] and then finds every
    destination too small. *)

Definition refusing_MultiByteToWideChar (code : DWORD)
    (CodePage : UINT) (dwFlags : DWORD) (lpMultiByteStr : std_string)
    (cbMultiByte : int) (lpWideCharStr : option std_wstring) (cchWideChar : int)
    (w : Thread) : (int * std_wstring) * Thread :=
  ((0, match lpWideCharStr with Some b => b | None => [] end),
   SetLastError code w).

Definition refusing_Win32 (code : DWORD) : Win32 Thread := {|
  MultiByteToWideChar := refusing_MultiByteToWideChar code;
  GetLastError := LastError
|}.

Definition shrinking_MultiByteToWideChar
    (CodePage : UINT) (dwFlags : DWORD) (lpMultiByteStr : std_string)
    (cbMultiByte : int) (lpWideCharStr : option std_wstring) (cchWideChar : int)
    (w : Thread) : (int * std_wstring) * Thread :=
  if cchWideChar =? 0
  then strict_MultiByteToWideChar CodePage dwFlags lpMultiByteStr cbMultiByte
         lpWideCharStr cchWideChar w
  else ((0, match lpWideCharStr with Some b => b | None => [] end),
        SetLastError ERROR_INSUFFICIENT_BUFFER w).

Definition shrinking_Win32 : Win32 Thread := {|
  MultiByteToWideChar := shrinking_MultiByteToWideChar;
  GetLastError := LastError
|}.

(** ** The two calls, as the source makes them

    [measure] is the call of lines 91-98, [fill n] the call of lines 117-124
    on the string that [resize] has just given [n] zeroed elements. *)

Definition measure {World} (api : Win32 World) (utf8 : std_string) (w : World)
  : (int * std_wstring) * World :=
  MultiByteToWideChar CP_UTF8 MB_ERR_INVALID_CHARS utf8
    (static_cast_int (length utf8)) None 0 w.

Definition fill {World} (api : Win32 World) (utf8 : std_string) (n : int) (w : World)
  : (int * std_wstring) * World :=
  MultiByteToWideChar CP_UTF8 MB_ERR_INVALID_CHARS utf8
    (static_cast_int (length utf8)) (Some (repeat 0 (Z.to_nat n))) n w.

(** An implementation whose answers do not depend on the state it is called
    in: same result, same buffer and, when the call fails, same last-error
    code afterwards. *)
Definition world_independent {World} (api : Win32 World) : Prop :=
  forall cp fl s cb dst cch (w w' : World),
    fst (MultiByteToWideChar cp fl s cb dst cch w)
    = fst (MultiByteToWideChar cp fl s cb dst cch w')
    /\ (fst (fst (MultiByteToWideChar cp fl s cb dst cch w)) = 0 ->
        GetLastError (snd (MultiByteToWideChar cp fl s cb dst cch w))
        = GetLastError (snd (MultiByteToWideChar cp fl s cb dst cch w'))).

(** [counting_Win32] is [strict_Win32] with a counter of the calls made to
    [MultiByteToWideChar] beside the thread state. *)
Definition counting_MultiByteToWideChar
    (CodePage : UINT) (dwFlags : DWORD) (lpMultiByteStr : std_string)
    (cbMultiByte : int) (lpWideCharStr : option std_wstring) (cchWideChar : int)
    (w : nat * Thread) : (int * std_wstring) * (nat * Thread) :=
  let '(r, t) :=
    strict_MultiByteToWideChar CodePage dwFlags lpMultiByteStr cbMultiByte
      lpWideCharStr cchWideChar (snd w) in
  (r, (S (fst w), t)).

Definition counting_Win32 : Win32 (nat * Thread) := {|
  MultiByteToWideChar := counting_MultiByteToWideChar;
  GetLastError := fun w => LastError (snd w)
|}.

(** A string of 2^31 letters [a]: one byte more than an [int] can count. *)
Definition oversized : std_string := repeat x61 (Z.to_nat (2 ^ 31)).

(** The bytes of the demonstration program (TestUTF8Console.cpp). *)
Definition japan : std_string := [xe6; x97; xa5; xe6; x9c; xac].

(** ** Observing the calls

    [logging_Win32 api] is [api] with a log beside its state: every call of
    [MultiByteToWideChar] is appended to the log with the arguments it was
    given and the result it returned, and is otherwise passed on to [api]
    unchanged. *)

Record Call : Type := {
  call_CodePage : UINT;
  call_dwFlags : DWORD;
  call_lpMultiByteStr : std_string;
  call_cbMultiByte : int;
  call_lpWideCharStr : option std_wstring;
  call_cchWideChar : int;
  call_result : int
}.

Definition logging_MultiByteToWideChar {World} (api : Win32 World)
    (CodePage : UINT) (dwFlags : DWORD) (lpMultiByteStr : std_string)
    (cbMultiByte : int) (lpWideCharStr : option std_wstring) (cchWideChar : int)
    (w : list Call * World) : (int * std_wstring) * (list Call * World) :=
  let '(r, w') :=
    MultiByteToWideChar CodePage dwFlags lpMultiByteStr cbMultiByte
      lpWideCharStr cchWideChar (snd w) in
  (r,
   (fst w ++ [{| call_CodePage := CodePage;
                 call_dwFlags := dwFlags;
                 call_lpMultiByteStr := lpMultiByteStr;
                 call_cbMultiByte := cbMultiByte;
                 call_lpWideCharStr := lpWideCharStr;
                 call_cchWideChar := cchWideChar;
                 call_result := fst r |}],
    w')).

Definition logging_Win32 {World} (api : Win32 World)
  : Win32 (list Call * World) := {|
  MultiByteToWideChar := logging_MultiByteToWideChar api;
  GetLastError := fun w => GetLastError (snd w)
|}.

(** The calls [Utf16FromUtf8] makes on [utf8], started in state [w]. *)
Definition calls_made {World} (api : Win32 World) (utf8 : std_string) (w : World)
  : list Call :=
  fst (snd (Utf16FromUtf8 (logging_Win32 api) utf8 ([], w))).

(** The log entries of the two calls of the source: the call of lines
    91-98, and the call of lines 117-124 with the count the first one
    returned. *)
Definition first_call {World} (api : Win32 World) (utf8 : std_string) (w : World)
  : Call :=
  {| call_CodePage := CP_UTF8;
     call_dwFlags := MB_ERR_INVALID_CHARS;
     call_lpMultiByteStr := utf8;
     call_cbMultiByte := length utf8;
     call_lpWideCharStr := None;
     call_cchWideChar := 0;
     call_result := fst (fst (measure api utf8 w)) |}.

Definition second_call {World} (api : Win32 World) (utf8 : std_string) (w : World)
  : Call :=
  let n := fst (fst (measure api utf8 w)) in
  {| call_CodePage := CP_UTF8;
     call_dwFlags := MB_ERR_INVALID_CHARS;
     call_lpMultiByteStr := utf8;
     call_cbMultiByte := length utf8;
     call_lpWideCharStr := Some (repeat 0 (Z.to_nat n));
     call_cchWideChar := n;
     call_result := fst (fst (fill api utf8 n (snd (measure api utf8 w)))) |}.

(** An implementation that writes into the destination it is given without
    changing its size, as a function that receives a pointer must. *)
Definition buffer_preserving {World} (api : Win32 World) : Prop :=
  forall cp fl s cb (b : std_wstring) cch (w : World),
    List.length (snd (fst (MultiByteToWideChar cp fl s cb (Some b) cch w)))
    = List.length b.

(** An implementation that touches the state only to report a failure: a
    call that returns a non-zero count leaves the state as it found it. *)
Definition quiet_on_success {World} (api : Win32 World) : Prop :=
  forall cp fl s cb dst cch (w : World),
    fst (fst (MultiByteToWideChar cp fl s cb dst cch w)) <> 0 ->
    snd (MultiByteToWideChar cp fl s cb dst cch w) = w.

(** Modelled from the spec: the promise sections 3 and 4.1 make for the
    absent [::MultiByteToWideChar] when it reports a count.  A first call
    that returns a non-zero count has validated the input strictly and
    counted the code units of its UTF-16 encoding; a second call that
    returns a non-zero count has put that whole encoding at the front of the
    destination and left the rest of the destination as it was.  Nothing is
    asked of a call that returns 0: an implementation may fail whenever it
    likes. *)
Definition sound_when_nonzero {World} (api : Win32 World) : Prop :=
  forall (utf8 : std_string),
    utf8 <> [] ->
    length utf8 <= numeric_limits_int_max ->
    (forall w : World,
        fst (fst (measure api utf8 w)) <> 0 ->
        exists cps,
          decode_utf8 utf8 = Some cps
          /\ fst (fst (measure api utf8 w))
             = Z.of_nat (List.length (utf16_encode cps)))
    /\ (forall (n : int) (w : World),
           0 < n ->
           fst (fst (fill api utf8 n w)) <> 0 ->
           exists cps,
             decode_utf8 utf8 = Some cps
             /\ Z.of_nat (List.length (utf16_encode cps)) <= n
             /\ snd (fst (fill api utf8 n w))
                = utf16_encode cps
                  ++ repeat 0 (Z.to_nat n - List.length (utf16_encode cps))).

(** ** The demonstration program (TestUTF8Console.cpp)

    Its state is the state of the API together with the standard output:
    the translation mode [_setmode] gives it and the wide characters
    inserted into [std::wcout] so far. *)

Definition _O_TEXT : int := 0x4000.
Definition _O_U16TEXT : int := 0x20000.

Record Stdout : Type := { translation_mode : int; wcout : std_wstring }.

(** [std::string] built from a pointer to [char]: the bytes before the
    first NUL. *)
Fixpoint std_string_from_c_str (p : list byte) : std_string :=
  match p with
  | [] => []
  | c :: p' => if Byte.eqb c x00 then [] else c :: std_string_from_c_str p'
  end.

(** [_setmode(_fileno(stdout), mode)]: sets the mode, returns the old one. *)
Definition _setmode_stdout {World} (mode : int) : Eff (Stdout * World) int :=
  fun s =>
    (inl (translation_mode (fst s)),
     ({| translation_mode := mode; wcout := wcout (fst s) |}, snd s)).

(** [std::wcout << ws] *)
Definition wcout_insert {World} (ws : std_wstring) : Eff (Stdout * World) unit :=
  fun s =>
    (inl tt,
     ({| translation_mode := translation_mode (fst s);
         wcout := wcout (fst s) ++ ws |}, snd s)).

(** A computation on the API's state, run inside the program's state. *)
Definition on_api {World A} (m : Eff World A) : Eff (Stdout * World) A :=
  fun s => let '(r, w') := m (snd s) in (r, (fst s, w')).

(** [main]: no handler, so an exception thrown by a conversion leaves it. *)
Definition main {World} (api : Win32 World) : Eff (Stdout * World) int :=
  (* Change stdout to Unicode UTF-16. *)
  (_ <- _setmode_stdout _O_U16TEXT ;;
   (* Japanese name for Japan, encoded in UTF-8 *)
   let utf8 := [xe6; x97; xa5; xe6; x9c; xac; x00] in
   let japan := std_string_from_c_str utf8 in
   (* Print UTF-16-encoded text *)
   line1 <- on_api (Utf16FromUtf8 api
                      (std_string_from_c_str [x4a; x61; x70; x61; x6e; x00])) ;;
   _ <- wcout_insert line1 ;;
   _ <- wcout_insert [0x0A; 0x0A] ;;
   line2 <- on_api (Utf16FromUtf8 api japan) ;;
   _ <- wcout_insert line2 ;;
   _ <- wcout_insert [0x0A] ;;
   ret 0)%eff.

(** Boolean tests of the decoder as propositions. *)
Ltac bool_to_prop :=
  repeat rewrite ?andb_true_iff, ?orb_true_iff, ?Z.leb_le, ?Z.ltb_lt in *.

(** ** Unit tests *)

(** The first line the demonstration program prints: "Japan". *)
Example test_Japan_ascii w :
  Utf16FromUtf8 strict_Win32 [x4a; x61; x70; x61; x6e] w
  = (inl [0x4A; 0x61; 0x70; 0x61; 0x6E], w).
Proof. destruct w. reflexivity. Qed.

(** U+00E9, U+20AC and U+1F600: two, three and four bytes; the last one
    becomes a surrogate pair. *)
Example test_decode_lengths :
  decode_utf8 [xc3; xa9; xe2; x82; xac; xf0; x9f; x98; x80]
  = Some [0xE9; 0x20AC; 0x1F600].
Proof. reflexivity. Qed.

Example test_surrogate_pair :
  utf16_encode [0x1F600] = [0xD83D; 0xDE00].
Proof. reflexivity. Qed.

(** Overlong forms, an encoded surrogate, a code point above U+10FFFF, a
    lone continuation byte and a sequence cut short are all refused. *)
Example test_decode_rejects :
  map decode_utf8
    [[xc0; x80]; [xe0; x80; x80]; [xf0; x80; x80; x80];
     [xed; xa0; x80]; [xf4; x90; x80; x80]; [x80]; [xe6; x97]; [xff]]
  = repeat None 8.
Proof. reflexivity. Qed.

(** An embedded NUL is data, not a terminator. *)
Example test_embedded_nul w :
  Utf16FromUtf8 strict_Win32 [x61; x00; x62] w = (inl [0x61; 0; 0x62], w).
Proof. destruct w. reflexivity. Qed.

(** Calls made to the primitive: two for a conversion, one when the first
    call fails, none for the empty string. *)
Example test_call_counts :
  map (fun utf8 => fst (snd (Utf16FromUtf8 counting_Win32 utf8
                               (O, {| LastError := 0 |}))))
    [japan; [xff]; []]
  = [2%nat; 1%nat; 0%nat].
Proof. reflexivity. Qed.

(** The program over the strict implementation: both lines, whole. *)
Example test_main :
  main strict_Win32
    ({| translation_mode := _O_TEXT; wcout := [] |}, {| LastError := 0 |})
  = (inl 0,
     ({| translation_mode := _O_U16TEXT;
         wcout := [0x4A; 0x61; 0x70; 0x61; 0x6E; 0x0A; 0x0A;
                   0x65E5; 0x672C; 0x0A] |},
      {| LastError := 0 |})).
Proof. reflexivity. Qed.

Example test_calls_made :
  map (fun c => (call_cbMultiByte c, call_cchWideChar c, call_result c))
    (calls_made strict_Win32 japan {| LastError := 0 |})
  = [(6, 0, 2); (6, 2, 2)].
Proof. reflexivity. Qed.

(** ** Arithmetic of the length guard *)

Lemma int_max_as_size_t :
  static_cast_size_t numeric_limits_int_max = numeric_limits_int_max.
Proof. reflexivity. Qed.

Lemma static_cast_int_in_range (x : Z) :
  0 <= x <= numeric_limits_int_max -> static_cast_int x = x.
Proof.
  unfold static_cast_int, numeric_limits_int_max. intros Hx.
  rewrite Z.mod_small; lia.
Qed.

Lemma length_nonneg (s : std_string) : 0 <= length s.
Proof. unfold length. lia. Qed.

Lemma length_nil_iff (s : std_string) : length s = 0 <-> s = [].
Proof.
  unfold length. destruct s as [|b s]; split; intros H;
    try reflexivity; discriminate.
Qed.

Lemma oversized_length : length oversized = 2 ^ 31.
Proof.
  unfold oversized, length. rewrite repeat_length.
  apply Z2Nat.id. discriminate.
Qed.

Lemma oversized_too_long : length oversized > numeric_limits_int_max.
Proof. rewrite oversized_length. reflexivity. Qed.

Lemma oversized_not_empty : oversized <> [].
Proof.
  intros H. apply length_nil_iff in H.
  rewrite oversized_length in H. discriminate H.
Qed.

(** ** The paths through [Utf16FromUtf8] *)

Section Paths.

Context {World : Type} (api : Win32 World).

Lemma Utf16FromUtf8_empty (w : World) :
  Utf16FromUtf8 api [] w = (inl [], w).
Proof. reflexivity. Qed.

Lemma Utf16FromUtf8_too_long (utf8 : std_string) (w : World) :
  length utf8 > numeric_limits_int_max ->
  Utf16FromUtf8 api utf8 w = (inr (overflow_error too_long_message), w).
Proof.
  intros Hlen. unfold Utf16FromUtf8.
  destruct utf8 as [|b rest].
  - exfalso. revert Hlen. unfold length, numeric_limits_int_max.
    cbn [List.length Z.of_nat]. lia.
  - cbn [empty]. rewrite int_max_as_size_t.
    destruct (Z.gtb_spec (length (b :: rest)) numeric_limits_int_max) as [_|Hle].
    + reflexivity.
    + lia.
Qed.

(** Past both guards the function is the two calls and the two tests of
    their results. *)
Lemma Utf16FromUtf8_in_range (utf8 : std_string) (w : World) :
  utf8 <> [] ->
  length utf8 <= numeric_limits_int_max ->
  Utf16FromUtf8 api utf8 w =
  let n := fst (fst (measure api utf8 w)) in
  let w1 := snd (measure api utf8 w) in
  if n =? 0 then
    (inr (Utf16FromUtf8ConversionError
            (if GetLastError w1 =? ERROR_NO_UNICODE_TRANSLATION
             then invalid_sequence_message else length_failed_message)
            (GetLastError w1)), w1)
  else if n <? 0 then (inr (length_error string_too_long_message), w1)
  else
    let r := fst (fst (fill api utf8 n w1)) in
    let w2 := snd (fill api utf8 n w1) in
    if r =? 0 then
      (inr (Utf16FromUtf8ConversionError
              (if GetLastError w2 =? ERROR_NO_UNICODE_TRANSLATION
               then invalid_sequence_message else convert_failed_message)
              (GetLastError w2)), w2)
    else (inl (snd (fst (fill api utf8 n w1))), w2).
Proof.
  intros Hne Hle. unfold Utf16FromUtf8.
  destruct utf8 as [|b rest]; [congruence|].
  cbn [empty]. rewrite int_max_as_size_t.
  destruct (Z.gtb_spec (length (b :: rest)) numeric_limits_int_max) as [Hgt|_];
    [lia|].
  unfold measure, fill. cbv zeta.
  unfold bind at 1, call_MultiByteToWideChar at 1.
  destruct (MultiByteToWideChar _ _ _ _ None _ _) as [[n buf] w1].
  cbn [fst snd].
  destruct (n =? 0); [reflexivity|].
  unfold bind at 1, resize.
  destruct (n <? 0); [reflexivity|].
  unfold ret at 1. rewrite firstn_nil, Nat.sub_0_r. cbn [app List.length].
  unfold bind at 1, call_MultiByteToWideChar.
  set (second := MultiByteToWideChar _ _ _ _ (Some _) _ _).
  change (MultiByteToWideChar _ _ _ _ (Some _) _ _) with second.
  destruct second as [[r out] w2]. cbn [fst snd].
  destruct (r =? 0); reflexivity.
Qed.

End Paths.

Lemma conversion_error_kind (other : string) (code : DWORD) :
  error_kind
    (Utf16FromUtf8ConversionError
       (if code =? ERROR_NO_UNICODE_TRANSLATION
        then invalid_sequence_message else other) code)
  = if code =? ERROR_NO_UNICODE_TRANSLATION
    then Some InvalidUtf8Sequence
    else error_kind (Utf16FromUtf8ConversionError other code).
Proof. destruct (code =? ERROR_NO_UNICODE_TRANSLATION); reflexivity. Qed.

(** ** Empty input *)

(** C4: [Utf16FromUtf8] of the empty string returns the empty UTF-16 string,
    never an error, and calls no conversion primitive: the equation holds
    for every implementation of the Win32 interface and the state comes back
    untouched, so no call of [MultiByteToWideChar] was made on the way. *)
Theorem empty_input_returns_empty {World} (api : Win32 World) (w : World) :
  Utf16FromUtf8 api [] w = (inl [], w).
Proof. apply Utf16FromUtf8_empty. Qed.

(** ** The length guard *)

(** C3: an input longer than [INT_MAX = 2^31 - 1] bytes is refused with the
    [InputTooLarge] kind of error; nothing was decoded (whatever the
    implementation of the interface, the state is the one the call started
    in) and the error carries no diagnostic code. *)
Theorem too_long_input_is_rejected
    {World} (api : Win32 World) (utf8 : std_string) (w : World) :
  length utf8 > 2 ^ 31 - 1 ->
  exists e,
    Utf16FromUtf8 api utf8 w = (inr e, w)
    /\ error_kind e = Some InputTooLarge
    /\ ErrorCode e = None.
Proof.
  intros Hlen. exists (overflow_error too_long_message).
  split; [|split; reflexivity].
  apply Utf16FromUtf8_too_long. exact Hlen.
Qed.

Lemma too_long_input_is_rejected_witness :
  length oversized > 2 ^ 31 - 1
  /\ exists e,
      Utf16FromUtf8 strict_Win32 oversized {| LastError := 0 |}
      = (inr e, {| LastError := 0 |})
      /\ error_kind e = Some InputTooLarge
      /\ ErrorCode e = None.
Proof.
  split.
  - exact oversized_too_long.
  - apply (too_long_input_is_rejected strict_Win32 oversized).
    exact oversized_too_long.
Defined.

(** ** Failure of the first call *)

(** C1: for a non-empty input that reaches the first call (its length fits
    an [int]), a result of 0 from that call makes [Utf16FromUtf8] throw a
    [Utf16FromUtf8ConversionError] holding the code [GetLastError] returns
    right after the call; its kind is [InvalidUtf8Sequence] when that code is
    [ERROR_NO_UNICODE_TRANSLATION] and [MeasurementFailed] for every other
    code. *)
Theorem measurement_failure_is_classified
    {World} (api : Win32 World) (utf8 : std_string) (w : World) :
  utf8 <> [] ->
  length utf8 <= numeric_limits_int_max ->
  fst (fst (measure api utf8 w)) = 0 ->
  exists e,
    Utf16FromUtf8 api utf8 w = (inr e, snd (measure api utf8 w))
    /\ ErrorCode e = Some (GetLastError (snd (measure api utf8 w)))
    /\ (GetLastError (snd (measure api utf8 w)) = ERROR_NO_UNICODE_TRANSLATION ->
        error_kind e = Some InvalidUtf8Sequence)
    /\ (GetLastError (snd (measure api utf8 w)) <> ERROR_NO_UNICODE_TRANSLATION ->
        error_kind e = Some MeasurementFailed).
Proof.
  intros Hne Hle Hzero.
  rewrite (Utf16FromUtf8_in_range api utf8 w Hne Hle). cbv zeta.
  rewrite Hzero, Z.eqb_refl.
  eexists. split; [reflexivity|]. split; [reflexivity|].
  rewrite conversion_error_kind.
  destruct (Z.eqb_spec (GetLastError (snd (measure api utf8 w)))
              ERROR_NO_UNICODE_TRANSLATION) as [Heq|Hneq].
  - split; [reflexivity|]. intros Hno. contradiction.
  - split; [intros Hyes; contradiction|reflexivity].
Qed.

Lemma measurement_failure_is_classified_witness :
  exists e,
    Utf16FromUtf8 (refusing_Win32 ERROR_INVALID_FLAGS) japan {| LastError := 0 |}
    = (inr e, snd (measure (refusing_Win32 ERROR_INVALID_FLAGS) japan
                     {| LastError := 0 |}))
    /\ ErrorCode e = Some ERROR_INVALID_FLAGS
    /\ (ERROR_INVALID_FLAGS = ERROR_NO_UNICODE_TRANSLATION ->
        error_kind e = Some InvalidUtf8Sequence)
    /\ (ERROR_INVALID_FLAGS <> ERROR_NO_UNICODE_TRANSLATION ->
        error_kind e = Some MeasurementFailed).
Proof.
  apply (measurement_failure_is_classified
           (refusing_Win32 ERROR_INVALID_FLAGS) japan {| LastError := 0 |}).
  - discriminate.
  - vm_compute. discriminate.
  - reflexivity.
Defined.

(** ** Failure of the second call *)

(** C7: when the first call succeeded (it returned a positive count) and the
    second call returns 0, [Utf16FromUtf8] throws a
    [Utf16FromUtf8ConversionError] holding the code [GetLastError] returns
    right after the second call; its kind is [InvalidUtf8Sequence] when that
    code is [ERROR_NO_UNICODE_TRANSLATION], as after the first call, and
    [ConversionFailed], in the place of [MeasurementFailed], for every other
    code. *)
Theorem fill_failure_is_classified
    {World} (api : Win32 World) (utf8 : std_string) (w : World) :
  utf8 <> [] ->
  length utf8 <= numeric_limits_int_max ->
  0 < fst (fst (measure api utf8 w)) ->
  fst (fst (fill api utf8 (fst (fst (measure api utf8 w)))
              (snd (measure api utf8 w)))) = 0 ->
  exists e w2,
    w2 = snd (fill api utf8 (fst (fst (measure api utf8 w)))
                (snd (measure api utf8 w)))
    /\ Utf16FromUtf8 api utf8 w = (inr e, w2)
    /\ ErrorCode e = Some (GetLastError w2)
    /\ (GetLastError w2 = ERROR_NO_UNICODE_TRANSLATION ->
        error_kind e = Some InvalidUtf8Sequence)
    /\ (GetLastError w2 <> ERROR_NO_UNICODE_TRANSLATION ->
        error_kind e = Some ConversionFailed).
Proof.
  intros Hne Hle Hpos Hzero.
  rewrite (Utf16FromUtf8_in_range api utf8 w Hne Hle). cbv zeta.
  destruct (Z.eqb_spec (fst (fst (measure api utf8 w))) 0) as [H0|_]; [lia|].
  destruct (Z.ltb_spec (fst (fst (measure api utf8 w))) 0) as [Hneg|_]; [lia|].
  rewrite Hzero, Z.eqb_refl.
  eexists. eexists. split; [reflexivity|].
  split; [reflexivity|]. split; [reflexivity|].
  rewrite conversion_error_kind.
  match goal with
  | |- context [?c =? ERROR_NO_UNICODE_TRANSLATION] =>
      destruct (Z.eqb_spec c ERROR_NO_UNICODE_TRANSLATION) as [Heq|Hneq]
  end.
  - split; [reflexivity|]. intros Hno. contradiction.
  - split; [intros Hyes; contradiction|reflexivity].
Qed.

Lemma fill_failure_is_classified_witness :
  exists e w2,
    w2 = {| LastError := ERROR_INSUFFICIENT_BUFFER |}
    /\ Utf16FromUtf8 shrinking_Win32 japan {| LastError := 0 |} = (inr e, w2)
    /\ ErrorCode e = Some (LastError w2)
    /\ (LastError w2 = ERROR_NO_UNICODE_TRANSLATION ->
        error_kind e = Some InvalidUtf8Sequence)
    /\ (LastError w2 <> ERROR_NO_UNICODE_TRANSLATION ->
        error_kind e = Some ConversionFailed).
Proof.
  apply (fill_failure_is_classified shrinking_Win32 japan {| LastError := 0 |}).
  - discriminate.
  - vm_compute. discriminate.
  - reflexivity.
  - reflexivity.
Defined.

(** ** Which exception, and who catches it *)

(** C10: the failure on a too-long input is a [std::overflow_error]: not a
    [Utf16FromUtf8ConversionError], not caught by a handler for that class,
    and without an error code.  Every other failure (the input fits an
    [int], and the first call kept to the API's contract of never returning
    a negative count) is a [Utf16FromUtf8ConversionError], caught by such a
    handler, whose [ErrorCode()] is the last-error code of the thread at the
    throw. *)
Theorem too_long_is_not_a_conversion_error
    {World} (api : Win32 World) (utf8 : std_string) (w : World) :
  (length utf8 > numeric_limits_int_max ->
   exists what,
     Utf16FromUtf8 api utf8 w = (inr (overflow_error what), w)
     /\ dynamic_class (overflow_error what) <> class_Utf16FromUtf8ConversionError
     /\ catches class_Utf16FromUtf8ConversionError (overflow_error what) = false
     /\ ErrorCode (overflow_error what) = None)
  /\
  (length utf8 <= numeric_limits_int_max ->
   0 <= fst (fst (measure api utf8 w)) ->
   forall e,
     fst (Utf16FromUtf8 api utf8 w) = inr e ->
     exists what code,
       e = Utf16FromUtf8ConversionError what code
       /\ catches class_Utf16FromUtf8ConversionError e = true
       /\ ErrorCode e = Some code
       /\ code = GetLastError (snd (Utf16FromUtf8 api utf8 w))).
Proof.
  split.
  - intros Hlen. exists too_long_message.
    rewrite (Utf16FromUtf8_too_long api utf8 w Hlen).
    repeat split; discriminate.
  - intros Hle Hnonneg e.
    destruct utf8 as [|b rest].
    + rewrite Utf16FromUtf8_empty. discriminate.
    + rewrite (Utf16FromUtf8_in_range api (b :: rest) w) by (congruence || exact Hle).
      cbv zeta.
      destruct (fst (fst (measure api (b :: rest) w)) =? 0).
      * cbn [fst snd]. intros He. injection He as <-.
        eexists. eexists. repeat split.
      * destruct (Z.ltb_spec (fst (fst (measure api (b :: rest) w))) 0) as [Hneg|_];
          [lia|].
        match goal with
        | |- context [if ?r =? 0 then _ else _] => destruct (r =? 0)
        end.
        -- cbn [fst snd]. intros He. injection He as <-.
           eexists. eexists. repeat split.
        -- cbn [fst]. discriminate.
Qed.

Lemma too_long_is_not_a_conversion_error_witness :
  (exists what,
     Utf16FromUtf8 strict_Win32 oversized {| LastError := 0 |}
     = (inr (overflow_error what), {| LastError := 0 |})
     /\ dynamic_class (overflow_error what) <> class_Utf16FromUtf8ConversionError
     /\ catches class_Utf16FromUtf8ConversionError (overflow_error what) = false
     /\ ErrorCode (overflow_error what) = None)
  /\
  (exists what code,
     Utf16FromUtf8ConversionError invalid_sequence_message
       ERROR_NO_UNICODE_TRANSLATION
     = Utf16FromUtf8ConversionError what code
     /\ catches class_Utf16FromUtf8ConversionError
          (Utf16FromUtf8ConversionError invalid_sequence_message
             ERROR_NO_UNICODE_TRANSLATION) = true
     /\ ErrorCode
          (Utf16FromUtf8ConversionError invalid_sequence_message
             ERROR_NO_UNICODE_TRANSLATION) = Some code
     /\ code = GetLastError
                 (snd (Utf16FromUtf8 strict_Win32 [xff] {| LastError := 0 |}))).
Proof.
  split.
  - apply (too_long_is_not_a_conversion_error
             strict_Win32 oversized {| LastError := 0 |}).
    exact oversized_too_long.
  - apply (too_long_is_not_a_conversion_error
             strict_Win32 [xff] {| LastError := 0 |}).
    + vm_compute. discriminate.
    + vm_compute. discriminate.
    + reflexivity.
Defined.

(** ** Determinism *)

Lemma utf16_units_not_empty (cp : Z) : utf16_units cp <> [].
Proof. unfold utf16_units. destruct (cp <? 0x10000); discriminate. Qed.

Lemma byte_value_range (b : byte) : 0 <= byte_value b < 256.
Proof.
  unfold byte_value. pose proof (Byte.to_N_bounded b) as Hb. lia.
Qed.

Lemma continuation_range (b : byte) :
  continuation b = true -> 0x80 <= byte_value b <= 0xBF.
Proof. unfold continuation. bool_to_prop. tauto. Qed.

Lemma scalar_value_iff (cp : Z) :
  scalar_value cp = true <-> 0 <= cp < 0xD800 \/ 0xE000 <= cp <= 0x10FFFF.
Proof. unfold scalar_value. bool_to_prop. tauto. Qed.

(** One step of the decoder: a successful decoding of a non-empty string
    reads a scalar value off the front and decodes what is left, which is
    shorter. *)
Lemma decode_utf8_step (b0 : byte) (s1 : std_string) (cps : list Z) :
  decode_utf8 (b0 :: s1) = Some cps ->
  exists cp rest cps',
    cps = cp :: cps'
    /\ decode_utf8 rest = Some cps'
    /\ scalar_value cp = true
    /\ (List.length rest < List.length (b0 :: s1))%nat.
Proof.
  pose proof (byte_value_range b0) as Hb0.
  cbn [decode_utf8]. cbv zeta.
  destruct (Z.ltb_spec (byte_value b0) 0x80) as [H1|H1].
  { destruct (decode_utf8 s1) as [cps'|] eqn:Hrest; [|discriminate].
    cbn [option_map]. intros H. injection H as <-.
    exists (byte_value b0), s1, cps'. repeat split; try assumption.
    - apply scalar_value_iff. lia.
    - cbn [List.length]. lia. }
  destruct (Z.ltb_spec (byte_value b0) 0xC2) as [H2|H2]; [discriminate|].
  destruct (Z.ltb_spec (byte_value b0) 0xE0) as [H3|H3].
  { destruct s1 as [|b1 s2]; [discriminate|].
    destruct (continuation b1) eqn:Hc1; [|discriminate].
    apply continuation_range in Hc1.
    destruct (decode_utf8 s2) as [cps'|] eqn:Hrest; [|discriminate].
    cbn [option_map]. intros H. injection H as <-.
    eexists. exists s2, cps'. repeat split; try assumption.
    - apply scalar_value_iff. lia.
    - cbn [List.length]. lia. }
  destruct (Z.ltb_spec (byte_value b0) 0xF0) as [H4|H4].
  { destruct s1 as [|b1 [|b2 s3]]; try discriminate.
    match goal with
    | |- (if ?c then _ else _) = _ -> _ => destruct c eqn:Hc; [|discriminate]
    end.
    apply andb_true_iff in Hc. destruct Hc as [_ Hscalar].
    destruct (decode_utf8 s3) as [cps'|] eqn:Hrest; [|discriminate].
    cbn [option_map]. intros H. injection H as <-.
    eexists. exists s3, cps'. repeat split; try assumption.
    cbn [List.length]. lia. }
  destruct (Z.ltb_spec (byte_value b0) 0xF5) as [H5|H5]; [|discriminate].
  destruct s1 as [|b1 [|b2 [|b3 s4]]]; try discriminate.
  match goal with
  | |- (if ?c then _ else _) = _ -> _ => destruct c eqn:Hc; [|discriminate]
  end.
  apply andb_true_iff in Hc. destruct Hc as [Hc Hhi].
  apply andb_true_iff in Hc. destruct Hc as [_ Hlo].
  apply Z.leb_le in Hhi, Hlo.
  destruct (decode_utf8 s4) as [cps'|] eqn:Hrest; [|discriminate].
  cbn [option_map]. intros H. injection H as <-.
  eexists. exists s4, cps'. repeat split; try assumption.
  - apply scalar_value_iff. lia.
  - cbn [List.length]. lia.
Qed.

Lemma decode_utf8_not_empty (s : std_string) (cps : list Z) :
  s <> [] -> decode_utf8 s = Some cps -> cps <> [].
Proof.
  destruct s as [|b0 s1]; [congruence|]. intros _ Hdec.
  apply decode_utf8_step in Hdec.
  destruct Hdec as (cp & rest & cps' & -> & _). discriminate.
Qed.

Lemma strict_Win32_world_independent : world_independent strict_Win32.
Proof.
  intros cp fl s cb dst cch w w'.
  cbn [MultiByteToWideChar GetLastError strict_Win32].
  unfold strict_MultiByteToWideChar. cbv zeta beta.
  destruct (negb (cp =? CP_UTF8)); [split; reflexivity|].
  destruct (negb (fl =? MB_ERR_INVALID_CHARS)); [split; reflexivity|].
  destruct ((cb <=? 0) || (cch <? 0) || (length s <? cb)) eqn:Hargs;
    [split; reflexivity|].
  destruct (decode_utf8 (firstn (Z.to_nat cb) s)) as [cps|] eqn:Hdec;
    [|split; reflexivity].
  assert (Hunits : Z.of_nat (List.length (utf16_encode cps)) <> 0).
  { apply orb_false_elim in Hargs. destruct Hargs as [Hargs Hlen].
    apply orb_false_elim in Hargs. destruct Hargs as [Hcb _].
    apply Z.leb_gt in Hcb. apply Z.ltb_ge in Hlen. unfold length in Hlen.
    apply decode_utf8_not_empty in Hdec.
    - destruct cps as [|c0 cps]; [congruence|].
      cbn [utf16_encode flat_map].
      pose proof (utf16_units_not_empty c0) as Hne.
      destruct (utf16_units c0); [congruence|]. discriminate.
    - intros Hnil. apply (f_equal (@List.length byte)) in Hnil.
      rewrite length_firstn in Hnil. cbn [List.length] in Hnil. lia. }
  destruct (cch =? 0).
  { split; [reflexivity|]. cbn [fst]. intros H. contradiction. }
  destruct dst as [buffer|]; [|split; reflexivity].
  destruct ((cch <? Z.of_nat (List.length (utf16_encode cps)))
            || (Z.of_nat (List.length buffer)
                <? Z.of_nat (List.length (utf16_encode cps))));
    split; try reflexivity.
  cbn [fst]. intros H. contradiction.
Qed.

(** C9: with a Win32 implementation whose answers depend on their arguments
    only, two calls of [Utf16FromUtf8] on the same input give the same
    outcome, whatever state each call starts in (the second may start in the
    state the first one left): the same UTF-16 string on success, the same
    exception, with the same kind and code, on failure. *)
Theorem conversion_is_deterministic
    {World} (api : Win32 World) (utf8 : std_string) (w w' : World) :
  world_independent api ->
  fst (Utf16FromUtf8 api utf8 w) = fst (Utf16FromUtf8 api utf8 w')
  /\ fst (Utf16FromUtf8 api utf8 (snd (Utf16FromUtf8 api utf8 w)))
     = fst (Utf16FromUtf8 api utf8 w).
Proof.
  intros Hpure.
  assert (Hany : forall v v' : World,
             fst (Utf16FromUtf8 api utf8 v) = fst (Utf16FromUtf8 api utf8 v')).
  { intros v v'.
    destruct utf8 as [|b rest]; [reflexivity|].
    destruct (Z_gt_le_dec (length (b :: rest)) numeric_limits_int_max)
      as [Hlong|Hle].
    - rewrite !Utf16FromUtf8_too_long by exact Hlong. reflexivity.
    - rewrite !(Utf16FromUtf8_in_range api (b :: rest)) by (congruence || exact Hle).
      cbv zeta. unfold measure, fill.
      set (len := static_cast_int (length (b :: rest))).
      destruct (Hpure CP_UTF8 MB_ERR_INVALID_CHARS (b :: rest) len None 0 v v')
        as [Hres Hcode].
      destruct (MultiByteToWideChar CP_UTF8 MB_ERR_INVALID_CHARS (b :: rest)
                  len None 0 v) as [[n buf] v1].
      destruct (MultiByteToWideChar CP_UTF8 MB_ERR_INVALID_CHARS (b :: rest)
                  len None 0 v') as [[n' buf'] v1'].
      cbn [fst snd] in *. injection Hres as <- <-.
      destruct (Z.eqb_spec n 0) as [Hn|Hn].
      + cbn [fst]. rewrite (Hcode Hn). reflexivity.
      + destruct (n <? 0); [reflexivity|].
        destruct (Hpure CP_UTF8 MB_ERR_INVALID_CHARS (b :: rest) len
                    (Some (repeat 0 (Z.to_nat n))) n v1 v1') as [Hres2 Hcode2].
        destruct (MultiByteToWideChar CP_UTF8 MB_ERR_INVALID_CHARS (b :: rest)
                    len (Some (repeat 0 (Z.to_nat n))) n v1) as [[r out] v2].
        destruct (MultiByteToWideChar CP_UTF8 MB_ERR_INVALID_CHARS (b :: rest)
                    len (Some (repeat 0 (Z.to_nat n))) n v1') as [[r' out'] v2'].
        cbn [fst snd] in *. injection Hres2 as <- <-.
        destruct (Z.eqb_spec r 0) as [Hr|Hr].
        * cbn [fst]. rewrite (Hcode2 Hr). reflexivity.
        * reflexivity. }
  split; apply Hany.
Qed.

Lemma conversion_is_deterministic_witness :
  fst (Utf16FromUtf8 strict_Win32 japan {| LastError := 0 |})
  = fst (Utf16FromUtf8 strict_Win32 japan {| LastError := ERROR_INVALID_FLAGS |})
  /\ fst (Utf16FromUtf8 strict_Win32 japan
            (snd (Utf16FromUtf8 strict_Win32 japan {| LastError := 0 |})))
     = fst (Utf16FromUtf8 strict_Win32 japan {| LastError := 0 |}).
Proof.
  apply (conversion_is_deterministic strict_Win32 japan).
  exact strict_Win32_world_independent.
Defined.

(** ** [Utf16FromUtf8] over the strict implementation *)

Lemma nonempty_length_positive (s : std_string) : s <> [] -> 0 < length s.
Proof.
  intros Hne. pose proof (length_nonneg s) as H0.
  destruct (Z.eq_dec (length s) 0) as [Hz|Hz]; [|lia].
  apply length_nil_iff in Hz. contradiction.
Qed.

Lemma encoded_length_positive (s : std_string) (cps : list Z) :
  s <> [] -> decode_utf8 s = Some cps ->
  0 < Z.of_nat (List.length (utf16_encode cps)).
Proof.
  intros Hne Hdec. apply (decode_utf8_not_empty s cps Hne) in Hdec.
  destruct cps as [|c0 cps]; [congruence|].
  cbn [utf16_encode flat_map].
  pose proof (utf16_units_not_empty c0) as Hunits.
  destruct (utf16_units c0); [congruence|]. cbn [app List.length]. lia.
Qed.

Lemma strict_measure (utf8 : std_string) (w : Thread) :
  utf8 <> [] ->
  length utf8 <= numeric_limits_int_max ->
  measure strict_Win32 utf8 w =
  match decode_utf8 utf8 with
  | Some cps => ((Z.of_nat (List.length (utf16_encode cps)), []), w)
  | None => ((0, []), SetLastError ERROR_NO_UNICODE_TRANSLATION w)
  end.
Proof.
  intros Hne Hle. pose proof (nonempty_length_positive utf8 Hne) as Hpos.
  unfold measure. cbn [MultiByteToWideChar strict_Win32].
  unfold strict_MultiByteToWideChar. cbv zeta beta.
  rewrite static_cast_int_in_range by lia.
  rewrite !Z.eqb_refl. cbn [negb].
  destruct (Z.leb_spec (length utf8) 0) as [Hbad|_]; [lia|].
  rewrite !Z.ltb_irrefl. cbn [orb].
  unfold length. rewrite Nat2Z.id, firstn_all.
  destruct (decode_utf8 utf8); reflexivity.
Qed.

Lemma strict_fill (utf8 : std_string) (cps : list Z) (w : Thread) :
  utf8 <> [] ->
  length utf8 <= numeric_limits_int_max ->
  decode_utf8 utf8 = Some cps ->
  fill strict_Win32 utf8 (Z.of_nat (List.length (utf16_encode cps))) w
  = ((Z.of_nat (List.length (utf16_encode cps)), utf16_encode cps), w).
Proof.
  intros Hne Hle Hdec.
  pose proof (nonempty_length_positive utf8 Hne) as Hpos.
  pose proof (encoded_length_positive utf8 cps Hne Hdec) as Hunits.
  unfold fill. cbn [MultiByteToWideChar strict_Win32].
  unfold strict_MultiByteToWideChar. cbv zeta beta.
  rewrite static_cast_int_in_range by lia.
  rewrite !Z.eqb_refl. cbn [negb].
  destruct (Z.leb_spec (length utf8) 0) as [Hbad|_]; [lia|].
  destruct (Z.ltb_spec (Z.of_nat (List.length (utf16_encode cps))) 0)
    as [Hbad|_]; [lia|].
  rewrite Z.ltb_irrefl. cbn [orb].
  unfold length. rewrite Nat2Z.id, firstn_all, Hdec.
  destruct (Z.eqb_spec (Z.of_nat (List.length (utf16_encode cps))) 0)
    as [Hbad|_]; [lia|].
  rewrite Nat2Z.id, repeat_length, Z.ltb_irrefl. cbn [orb].
  rewrite skipn_all2 by (rewrite repeat_length; apply Nat.le_refl).
  rewrite app_nil_r. reflexivity.
Qed.

(** With the strict implementation, an input that passes the two guards is
    converted exactly when it is well-formed UTF-8, and the thread's
    last-error code changes only on failure. *)
Lemma Utf16FromUtf8_strict (utf8 : std_string) (w : Thread) :
  utf8 <> [] ->
  length utf8 <= numeric_limits_int_max ->
  Utf16FromUtf8 strict_Win32 utf8 w =
  match decode_utf8 utf8 with
  | Some cps => (inl (utf16_encode cps), w)
  | None =>
      (inr (Utf16FromUtf8ConversionError invalid_sequence_message
              ERROR_NO_UNICODE_TRANSLATION),
       SetLastError ERROR_NO_UNICODE_TRANSLATION w)
  end.
Proof.
  intros Hne Hle.
  rewrite (Utf16FromUtf8_in_range strict_Win32 utf8 w Hne Hle). cbv zeta.
  rewrite (strict_measure utf8 w Hne Hle).
  destruct (decode_utf8 utf8) as [cps|] eqn:Hdec.
  - pose proof (encoded_length_positive utf8 cps Hne Hdec) as Hunits.
    cbn [fst snd].
    destruct (Z.eqb_spec (Z.of_nat (List.length (utf16_encode cps))) 0)
      as [Hbad|_]; [lia|].
    destruct (Z.ltb_spec (Z.of_nat (List.length (utf16_encode cps))) 0)
      as [Hbad|_]; [lia|].
    rewrite (strict_fill utf8 cps w Hne Hle Hdec). cbn [fst snd].
    destruct (Z.eqb_spec (Z.of_nat (List.length (utf16_encode cps))) 0)
      as [Hbad|_]; [lia|].
    reflexivity.
  - reflexivity.
Qed.

(** ** Well-formed output *)

Lemma decode_utf8_scalar (n : nat) :
  forall (s : std_string) (cps : list Z),
    (List.length s <= n)%nat ->
    decode_utf8 s = Some cps ->
    Forall (fun cp => scalar_value cp = true) cps.
Proof.
  induction n as [|n IH]; intros s cps Hlen Hdec.
  - destruct s as [|b0 s1]; [|cbn [List.length] in Hlen; lia].
    injection Hdec as <-. constructor.
  - destruct s as [|b0 s1].
    + injection Hdec as <-. constructor.
    + apply decode_utf8_step in Hdec.
      destruct Hdec as (cp & rest & cps' & -> & Hrest & Hscalar & Hshort).
      constructor; [exact Hscalar|].
      apply (IH rest cps'); [lia|exact Hrest].
Qed.

Lemma well_formed_utf16_units (cp : Z) (rest : std_wstring) :
  scalar_value cp = true ->
  well_formed_utf16 (utf16_units cp ++ rest) = well_formed_utf16 rest.
Proof.
  intros Hscalar. apply scalar_value_iff in Hscalar. unfold utf16_units.
  destruct (Z.ltb_spec cp 0x10000) as [Hbmp|Hsup].
  - cbn [app well_formed_utf16].
    assert (Hin : ((0 <=? cp) && (cp <? 0xD800))
                  || ((0xE000 <=? cp) && (cp <=? 0xFFFF)) = true)
      by (bool_to_prop; lia).
    rewrite Hin. reflexivity.
  - set (hi := 0xD800 + (cp - 0x10000) / 1024).
    set (lo := 0xDC00 + (cp - 0x10000) mod 1024).
    assert (Hhi : 0xD800 <= hi < 0xDC00)
      by (subst hi; Z.to_euclidean_division_equations; lia).
    assert (Hlo : 0xDC00 <= lo < 0xE000)
      by (subst lo; Z.to_euclidean_division_equations; lia).
    cbn [app well_formed_utf16].
    destruct (((0 <=? hi) && (hi <? 0xD800))
              || ((0xE000 <=? hi) && (hi <=? 0xFFFF))) eqn:Hplain.
    + exfalso. bool_to_prop. lia.
    + assert (Hhigh : (0xD800 <=? hi) && (hi <? 0xDC00) = true)
        by (bool_to_prop; lia).
      assert (Hlow : (0xDC00 <=? lo) && (lo <? 0xE000) = true)
        by (bool_to_prop; lia).
      rewrite Hhigh, Hlow. reflexivity.
Qed.

Lemma well_formed_utf16_encode (cps : list Z) :
  Forall (fun cp => scalar_value cp = true) cps ->
  well_formed_utf16 (utf16_encode cps) = true.
Proof.
  induction 1 as [|cp cps Hcp _ IH]; [reflexivity|].
  cbn [utf16_encode flat_map].
  rewrite well_formed_utf16_units by exact Hcp. exact IH.
Qed.

(** ** ASCII *)

Lemma decode_utf8_ascii (s : std_string) :
  Forall (fun b => byte_value b < 0x80) s ->
  decode_utf8 s = Some (map byte_value s).
Proof.
  induction 1 as [|b s Hb _ IH]; [reflexivity|].
  cbn [decode_utf8 map]. cbv zeta.
  destruct (Z.ltb_spec (byte_value b) 0x80) as [_|Hbad]; [|lia].
  rewrite IH. reflexivity.
Qed.

Lemma utf16_encode_ascii (s : std_string) :
  Forall (fun b => byte_value b < 0x80) s ->
  utf16_encode (map byte_value s) = map byte_value s.
Proof.
  induction 1 as [|b s Hb _ IH]; [reflexivity|].
  cbn [utf16_encode map flat_map]. fold (utf16_encode (map byte_value s)).
  rewrite IH. unfold utf16_units.
  destruct (Z.ltb_spec (byte_value b) 0x10000) as [_|Hbad]; [reflexivity|lia].
Qed.

Lemma repeat_ascii (b : byte) (n : nat) :
  byte_value b < 0x80 -> Forall (fun b => byte_value b < 0x80) (repeat b n).
Proof.
  intros Hb. induction n as [|n IH]; cbn [repeat]; constructor; assumption.
Qed.

Lemma oversized_ascii : Forall (fun b => byte_value b < 0x80) oversized.
Proof. unfold oversized. apply repeat_ascii. reflexivity. Qed.

(** ** Conversions of particular inputs *)

(** C2: the single byte [0xFF], which no UTF-8 sequence starts with, and the
    two bytes [0xE6 0x97], a three-byte sequence cut short, are both refused
    with the [InvalidUtf8Sequence] kind of error; neither gives a string. *)
Theorem invalid_and_truncated_are_rejected (w : Thread) :
  (exists e w',
      Utf16FromUtf8 strict_Win32 [xff] w = (inr e, w')
      /\ error_kind e = Some InvalidUtf8Sequence)
  /\ (exists e w',
         Utf16FromUtf8 strict_Win32 [xe6; x97] w = (inr e, w')
         /\ error_kind e = Some InvalidUtf8Sequence).
Proof.
  split.
  - rewrite Utf16FromUtf8_strict by (discriminate || (vm_compute; discriminate)).
    cbn [decode_utf8]. eexists. eexists. split; reflexivity.
  - rewrite Utf16FromUtf8_strict by (discriminate || (vm_compute; discriminate)).
    cbn [decode_utf8]. eexists. eexists. split; reflexivity.
Qed.

(** C6: the six bytes [E6 97 A5 E6 9C AC] are converted to exactly the two
    UTF-16 code units [0x65E5], [0x672C]. *)
Theorem japan_is_two_code_units (w : Thread) :
  Utf16FromUtf8 strict_Win32 japan w = (inl [0x65E5; 0x672C], w).
Proof.
  rewrite Utf16FromUtf8_strict by (discriminate || (vm_compute; discriminate)).
  reflexivity.
Qed.

(** C5, as the code has it: a non-empty input of bytes below [0x80] whose
    length fits an [int] is converted to a UTF-16 string of the same length
    whose i-th code unit is the i-th byte, zero-extended. *)
Theorem ascii_is_zero_extended (utf8 : std_string) (w : Thread) :
  utf8 <> [] ->
  length utf8 <= numeric_limits_int_max ->
  Forall (fun b => byte_value b < 0x80) utf8 ->
  exists utf16,
    Utf16FromUtf8 strict_Win32 utf8 w = (inl utf16, w)
    /\ List.length utf16 = List.length utf8
    /\ forall i b, nth_error utf8 i = Some b ->
                   nth_error utf16 i = Some (byte_value b).
Proof.
  intros Hne Hle Hascii. exists (map byte_value utf8).
  split; [|split].
  - rewrite (Utf16FromUtf8_strict utf8 w Hne Hle).
    rewrite (decode_utf8_ascii utf8 Hascii).
    rewrite (utf16_encode_ascii utf8 Hascii). reflexivity.
  - apply length_map.
  - intros i b Hi. apply map_nth_error. exact Hi.
Qed.

Lemma ascii_is_zero_extended_witness :
  exists utf16,
    Utf16FromUtf8 strict_Win32 [x4a; x61; x70; x61; x6e] {| LastError := 0 |}
    = (inl utf16, {| LastError := 0 |})
    /\ List.length utf16 = 5%nat
    /\ forall i b, nth_error [x4a; x61; x70; x61; x6e] i = Some b ->
                   nth_error utf16 i = Some (byte_value b).
Proof.
  apply (ascii_is_zero_extended [x4a; x61; x70; x61; x6e] {| LastError := 0 |}).
  - discriminate.
  - vm_compute. discriminate.
  - repeat constructor.
Defined.

(** C5 as the specification words it, for every non-empty input of bytes
    below [0x80], fails on a long one: 2^31 letters [a] are refused by the
    length guard and no string comes back. *)
Lemma ascii_too_long_is_refused :
  oversized <> []
  /\ Forall (fun b => byte_value b < 0x80) oversized
  /\ Utf16FromUtf8 strict_Win32 oversized {| LastError := 0 |}
     = (inr (overflow_error too_long_message), {| LastError := 0 |})
  /\ ~ (exists utf16 w',
           Utf16FromUtf8 strict_Win32 oversized {| LastError := 0 |}
           = (inl utf16, w')).
Proof.
  pose proof (Utf16FromUtf8_too_long strict_Win32 oversized
                {| LastError := 0 |} oversized_too_long) as Hrefused.
  split; [exact oversized_not_empty|].
  split; [exact oversized_ascii|].
  split; [exact Hrefused|].
  intros (utf16 & w' & Hok). rewrite Hrefused in Hok. discriminate Hok.
Qed.

(** ** All or nothing *)

(** Over the strict implementation a call returns a string exactly for
    well-formed input that is not too long, and the string is then the whole
    UTF-16 encoding of its scalar values; the second call never fails
    there. *)
Lemma strict_result_is_whole_or_error (utf8 : std_string) (w : Thread) :
  match fst (Utf16FromUtf8 strict_Win32 utf8 w) with
  | inl utf16 =>
      exists cps,
        decode_utf8 utf8 = Some cps
        /\ utf16 = utf16_encode cps
        /\ well_formed_utf16 utf16 = true
        /\ Z.of_nat (List.length utf16) = fst (fst (measure strict_Win32 utf8 w))
  | inr e =>
      decode_utf8 utf8 = None \/ length utf8 > numeric_limits_int_max
  end.
Proof.
  destruct utf8 as [|b rest].
  - rewrite Utf16FromUtf8_empty. cbn [fst]. exists [].
    repeat split; reflexivity.
  - destruct (Z_gt_le_dec (length (b :: rest)) numeric_limits_int_max)
      as [Hlong|Hle].
    + rewrite Utf16FromUtf8_too_long by exact Hlong. cbn [fst]. right. exact Hlong.
    + assert (Hne : b :: rest <> []) by discriminate.
      rewrite (Utf16FromUtf8_strict (b :: rest) w Hne Hle).
      rewrite (strict_measure (b :: rest) w Hne Hle).
      destruct (decode_utf8 (b :: rest)) as [cps|] eqn:Hdec; cbn [fst].
      * exists cps. repeat split.
        apply well_formed_utf16_encode.
        apply (decode_utf8_scalar (List.length (b :: rest)) (b :: rest) cps);
          [apply Nat.le_refl|exact Hdec].
      * left. reflexivity.
Qed.

(** ** The calls [Utf16FromUtf8] makes *)

Section Calls.

Context {World : Type} (api : Win32 World).

Lemma logging_measure (utf8 : std_string) (log : list Call) (w : World) :
  length utf8 <= numeric_limits_int_max ->
  measure (logging_Win32 api) utf8 (log, w)
  = (fst (measure api utf8 w),
     (log ++ [first_call api utf8 w], snd (measure api utf8 w))).
Proof.
  intros Hle. unfold first_call.
  unfold measure. cbn [MultiByteToWideChar logging_Win32].
  unfold logging_MultiByteToWideChar. cbn [fst snd].
  rewrite static_cast_int_in_range by (pose proof (length_nonneg utf8); lia).
  destruct (MultiByteToWideChar _ _ _ _ _ _ _) as [r w']. reflexivity.
Qed.

Lemma logging_fill (utf8 : std_string) (n : int) (log : list Call) (w : World) :
  length utf8 <= numeric_limits_int_max ->
  fill (logging_Win32 api) utf8 n (log, w)
  = (fst (fill api utf8 n w),
     (log ++ [{| call_CodePage := CP_UTF8;
                 call_dwFlags := MB_ERR_INVALID_CHARS;
                 call_lpMultiByteStr := utf8;
                 call_cbMultiByte := length utf8;
                 call_lpWideCharStr := Some (repeat 0 (Z.to_nat n));
                 call_cchWideChar := n;
                 call_result := fst (fst (fill api utf8 n w)) |}],
      snd (fill api utf8 n w))).
Proof.
  intros Hle.
  unfold fill. cbn [MultiByteToWideChar logging_Win32].
  unfold logging_MultiByteToWideChar. cbn [fst snd].
  rewrite static_cast_int_in_range by (pose proof (length_nonneg utf8); lia).
  destruct (MultiByteToWideChar _ _ _ _ _ _ _) as [r w']. reflexivity.
Qed.

(** The run with the log is the run without it, and the log grows by no
    call, by the first call, or by the first and the second. *)
Lemma Utf16FromUtf8_logging (utf8 : std_string) (log : list Call) (w : World) :
  exists calls,
    Utf16FromUtf8 (logging_Win32 api) utf8 (log, w)
    = (fst (Utf16FromUtf8 api utf8 w),
       (log ++ calls, snd (Utf16FromUtf8 api utf8 w)))
    /\ ((calls = [] /\ (utf8 = [] \/ length utf8 > numeric_limits_int_max))
        \/ (utf8 <> [] /\ length utf8 <= numeric_limits_int_max
            /\ fst (fst (measure api utf8 w)) <= 0
            /\ calls = [first_call api utf8 w])
        \/ (utf8 <> [] /\ length utf8 <= numeric_limits_int_max
            /\ 0 < fst (fst (measure api utf8 w))
            /\ calls = [first_call api utf8 w; second_call api utf8 w])).
Proof.
  destruct utf8 as [|b rest].
  { exists []. rewrite app_nil_r. split; [reflexivity|]. left. split; auto. }
  destruct (Z_gt_le_dec (length (b :: rest)) numeric_limits_int_max)
    as [Hlong|Hle].
  { exists []. rewrite app_nil_r, !Utf16FromUtf8_too_long by exact Hlong.
    split; [reflexivity|]. left. split; auto. }
  assert (Hne : b :: rest <> []) by discriminate.
  rewrite (Utf16FromUtf8_in_range (logging_Win32 api) (b :: rest) (log, w) Hne Hle).
  rewrite (Utf16FromUtf8_in_range api (b :: rest) w Hne Hle).
  cbv zeta. rewrite (logging_measure (b :: rest) log w Hle). cbn [fst snd].
  cbn [GetLastError logging_Win32]. cbn [fst snd].
  destruct (Z.eqb_spec (fst (fst (measure api (b :: rest) w))) 0) as [Hz|Hnz].
  { exists [first_call api (b :: rest) w]. split; [reflexivity|].
    right. left. repeat split; auto; lia. }
  destruct (Z.ltb_spec (fst (fst (measure api (b :: rest) w))) 0) as [Hneg|Hpos].
  { exists [first_call api (b :: rest) w]. split; [reflexivity|].
    right. left. repeat split; auto; lia. }
  exists [first_call api (b :: rest) w; second_call api (b :: rest) w].
  split; [|right; right; repeat split; auto; lia].
  rewrite (logging_fill (b :: rest) _ _ _ Hle). cbn [fst snd].
  rewrite <- app_assoc. cbn [app].
  destruct (fst (fst (fill api (b :: rest) (fst (fst (measure api (b :: rest) w)))
                        (snd (measure api (b :: rest) w)))) =? 0);
    reflexivity.
Qed.

End Calls.

Lemma logging_is_transparent
    {World} (api : Win32 World) (utf8 : std_string) (w : World) :
  fst (Utf16FromUtf8 (logging_Win32 api) utf8 ([], w))
  = fst (Utf16FromUtf8 api utf8 w)
  /\ snd (snd (Utf16FromUtf8 (logging_Win32 api) utf8 ([], w)))
     = snd (Utf16FromUtf8 api utf8 w).
Proof.
  destruct (Utf16FromUtf8_logging api utf8 [] w) as (calls & Hrun & _).
  rewrite Hrun. split; reflexivity.
Qed.

Lemma calls_made_cases
    {World} (api : Win32 World) (utf8 : std_string) (w : World) :
  (calls_made api utf8 w = []
   /\ (utf8 = [] \/ length utf8 > numeric_limits_int_max))
  \/ (utf8 <> [] /\ length utf8 <= numeric_limits_int_max
      /\ fst (fst (measure api utf8 w)) <= 0
      /\ calls_made api utf8 w = [first_call api utf8 w])
  \/ (utf8 <> [] /\ length utf8 <= numeric_limits_int_max
      /\ 0 < fst (fst (measure api utf8 w))
      /\ calls_made api utf8 w = [first_call api utf8 w; second_call api utf8 w]).
Proof.
  unfold calls_made.
  destruct (Utf16FromUtf8_logging api utf8 [] w) as (calls & Hrun & Hshape).
  rewrite Hrun. cbn [fst snd app].
  destruct Hshape as [[-> H]|[(H1 & H2 & H3 & ->)|(H1 & H2 & H3 & ->)]].
  - left. split; [reflexivity|exact H].
  - right. left. repeat split; assumption.
  - right. right. repeat split; assumption.
Qed.

(** X1: every call [Utf16FromUtf8] makes to [MultiByteToWideChar] asks for
    code page [CP_UTF8] with the flag [MB_ERR_INVALID_CHARS], on the input
    string itself, and announces as [cbMultiByte] the length of that string,
    a positive number that fits an [int]: the cast of line 88 never yields a
    negative or wrapped count. *)
Theorem every_call_is_strict_and_sized
    {World} (api : Win32 World) (utf8 : std_string) (w : World) :
  Forall (fun c =>
            call_CodePage c = CP_UTF8
            /\ call_dwFlags c = MB_ERR_INVALID_CHARS
            /\ call_lpMultiByteStr c = utf8
            /\ call_cbMultiByte c = length utf8
            /\ 0 < call_cbMultiByte c <= numeric_limits_int_max)
    (calls_made api utf8 w).
Proof.
  destruct (calls_made_cases api utf8 w)
    as [[-> _]|[(Hne & Hle & _ & ->)|(Hne & Hle & _ & ->)]].
  - constructor.
  - pose proof (nonempty_length_positive utf8 Hne) as Hpos.
    constructor; [|constructor].
    unfold first_call.
    cbn [call_CodePage call_dwFlags call_lpMultiByteStr call_cbMultiByte].
    repeat split; try reflexivity; lia.
  - pose proof (nonempty_length_positive utf8 Hne) as Hpos.
    constructor; [|constructor; [|constructor]].
    + unfold first_call.
      cbn [call_CodePage call_dwFlags call_lpMultiByteStr call_cbMultiByte].
      repeat split; try reflexivity; lia.
    + unfold second_call.
      cbn [call_CodePage call_dwFlags call_lpMultiByteStr call_cbMultiByte].
      repeat split; try reflexivity; lia.
Qed.

(** X2: [Utf16FromUtf8] calls [MultiByteToWideChar] at most twice.  It makes
    no call exactly when the input is empty or too long.  Its first call has
    no destination and size 0.  It makes a second call exactly when the
    first returned a positive count [n], and that call is given a
    destination of exactly [n] zeroed code units and announces [n] as its
    size: the buffer is never shorter than announced. *)
Theorem calls_are_measure_then_fill
    {World} (api : Win32 World) (utf8 : std_string) (w : World) :
  (calls_made api utf8 w = []
   /\ (utf8 = [] \/ length utf8 > numeric_limits_int_max))
  \/ (utf8 <> [] /\ length utf8 <= numeric_limits_int_max
      /\ exists c1,
          calls_made api utf8 w = [c1]
          /\ call_lpWideCharStr c1 = None /\ call_cchWideChar c1 = 0
          /\ call_result c1 <= 0)
  \/ (utf8 <> [] /\ length utf8 <= numeric_limits_int_max
      /\ exists c1 c2 buffer,
          calls_made api utf8 w = [c1; c2]
          /\ call_lpWideCharStr c1 = None /\ call_cchWideChar c1 = 0
          /\ 0 < call_result c1
          /\ call_cchWideChar c2 = call_result c1
          /\ call_lpWideCharStr c2 = Some buffer
          /\ buffer = repeat 0 (List.length buffer)
          /\ Z.of_nat (List.length buffer) = call_cchWideChar c2).
Proof.
  destruct (calls_made_cases api utf8 w)
    as [[Hnone Hwhy]|[(Hne & Hle & Hn & Hcalls)|(Hne & Hle & Hn & Hcalls)]].
  - left. auto.
  - right. left. repeat split; try assumption.
    exists (first_call api utf8 w). repeat split; assumption.
  - right. right. repeat split; try assumption.
    exists (first_call api utf8 w), (second_call api utf8 w),
      (repeat 0 (Z.to_nat (fst (fst (measure api utf8 w))))).
    repeat split; try assumption.
    + rewrite repeat_length. reflexivity.
    + rewrite repeat_length. cbn. lia.
Qed.

(** ** The size of the result *)

Lemma strict_Win32_buffer_preserving : buffer_preserving strict_Win32.
Proof.
  intros cp fl s cb b cch w.
  cbn [MultiByteToWideChar strict_Win32].
  unfold strict_MultiByteToWideChar. cbv zeta beta.
  destruct (negb (cp =? CP_UTF8)); [reflexivity|].
  destruct (negb (fl =? MB_ERR_INVALID_CHARS)); [reflexivity|].
  destruct ((cb <=? 0) || (cch <? 0) || (length s <? cb)); [reflexivity|].
  destruct (decode_utf8 (firstn (Z.to_nat cb) s)) as [cps|]; [|reflexivity].
  destruct (cch =? 0); [reflexivity|].
  destruct ((cch <? Z.of_nat (List.length (utf16_encode cps)))
            || (Z.of_nat (List.length b)
                <? Z.of_nat (List.length (utf16_encode cps)))) eqn:Hsmall;
    [reflexivity|].
  apply orb_false_elim in Hsmall. destruct Hsmall as [_ Hfits].
  apply Z.ltb_ge in Hfits. cbn [fst snd].
  rewrite length_app, length_skipn. lia.
Qed.

(** X3: with an implementation that does not resize the destination it is
    given, a string returned by [Utf16FromUtf8] for a non-empty input has
    exactly as many code units as the first call counted, and that count is
    positive; so the result is empty only for the empty input. *)
Theorem returned_length_is_measured
    {World} (api : Win32 World) (utf8 : std_string) (w : World)
    (utf16 : std_wstring) :
  buffer_preserving api ->
  fst (Utf16FromUtf8 api utf8 w) = inl utf16 ->
  (utf8 = [] /\ utf16 = [])
  \/ (utf8 <> [] /\ utf16 <> []
      /\ 0 < fst (fst (measure api utf8 w))
      /\ Z.of_nat (List.length utf16) = fst (fst (measure api utf8 w))).
Proof.
  intros Hkeep Hok.
  destruct utf8 as [|b rest].
  { left. rewrite Utf16FromUtf8_empty in Hok. injection Hok as <-. auto. }
  right. split; [discriminate|].
  destruct (Z_gt_le_dec (length (b :: rest)) numeric_limits_int_max)
    as [Hlong|Hle].
  { rewrite Utf16FromUtf8_too_long in Hok by exact Hlong. discriminate Hok. }
  rewrite (Utf16FromUtf8_in_range api (b :: rest) w) in Hok
    by (discriminate || exact Hle).
  cbv zeta in Hok.
  set (n := fst (fst (measure api (b :: rest) w))) in *.
  destruct (Z.eqb_spec n 0) as [Hz|Hnz]; [discriminate Hok|].
  destruct (Z.ltb_spec n 0) as [Hneg|Hpos]; [discriminate Hok|].
  destruct (fst (fst (fill api (b :: rest) n (snd (measure api (b :: rest) w))))
            =? 0); [discriminate Hok|].
  cbn [fst] in Hok. injection Hok as <-.
  assert (Hlen : List.length
                   (snd (fst (fill api (b :: rest) n
                                (snd (measure api (b :: rest) w)))))
                 = Z.to_nat n).
  { unfold fill. rewrite Hkeep. apply repeat_length. }
  repeat split; try lia.
  intros Hnil. rewrite Hnil in Hlen. cbn [List.length] in Hlen. lia.
Qed.

Lemma returned_length_is_measured_witness :
  (japan = [] /\ [0x65E5; 0x672C] = [])
  \/ (japan <> [] /\ [0x65E5; 0x672C] <> []
      /\ 0 < fst (fst (measure strict_Win32 japan {| LastError := 0 |}))
      /\ Z.of_nat (List.length [0x65E5; 0x672C])
         = fst (fst (measure strict_Win32 japan {| LastError := 0 |}))).
Proof.
  apply (returned_length_is_measured strict_Win32 japan {| LastError := 0 |}).
  - exact strict_Win32_buffer_preserving.
  - reflexivity.
Defined.

(** ** What a failure tells *)

Section Failures.

Context {World : Type} (api : Win32 World).

(** The exceptions [Utf16FromUtf8] can end with, each with its cause. *)
Lemma Utf16FromUtf8_failure (utf8 : std_string) (w : World) (e : exception) :
  fst (Utf16FromUtf8 api utf8 w) = inr e ->
  (length utf8 > numeric_limits_int_max
   /\ e = overflow_error too_long_message)
  \/ (length utf8 <= numeric_limits_int_max
      /\ fst (fst (measure api utf8 w)) = 0
      /\ exists code,
          code = GetLastError (snd (measure api utf8 w))
          /\ e = Utf16FromUtf8ConversionError
                   (if code =? ERROR_NO_UNICODE_TRANSLATION
                    then invalid_sequence_message else length_failed_message)
                   code)
  \/ (length utf8 <= numeric_limits_int_max
      /\ fst (fst (measure api utf8 w)) < 0
      /\ e = length_error string_too_long_message)
  \/ (length utf8 <= numeric_limits_int_max
      /\ 0 < fst (fst (measure api utf8 w))
      /\ fst (fst (fill api utf8 (fst (fst (measure api utf8 w)))
                     (snd (measure api utf8 w)))) = 0
      /\ exists code,
          code = GetLastError
                   (snd (fill api utf8 (fst (fst (measure api utf8 w)))
                           (snd (measure api utf8 w))))
          /\ e = Utf16FromUtf8ConversionError
                   (if code =? ERROR_NO_UNICODE_TRANSLATION
                    then invalid_sequence_message else convert_failed_message)
                   code).
Proof.
  intros Hfail.
  destruct utf8 as [|b rest].
  { rewrite Utf16FromUtf8_empty in Hfail. discriminate Hfail. }
  destruct (Z_gt_le_dec (length (b :: rest)) numeric_limits_int_max)
    as [Hlong|Hle].
  { rewrite Utf16FromUtf8_too_long in Hfail by exact Hlong.
    injection Hfail as <-. left. auto. }
  right.
  rewrite (Utf16FromUtf8_in_range api (b :: rest) w) in Hfail
    by (discriminate || exact Hle).
  cbv zeta in Hfail.
  destruct (Z.eqb_spec (fst (fst (measure api (b :: rest) w))) 0) as [Hz|Hnz].
  { injection Hfail as <-. left. repeat split; try assumption.
    eexists. split; reflexivity. }
  right.
  destruct (Z.ltb_spec (fst (fst (measure api (b :: rest) w))) 0) as [Hneg|Hpos].
  { injection Hfail as <-. left. auto. }
  right.
  match type of Hfail with
  | context [if ?r =? 0 then _ else _] =>
      destruct (Z.eqb_spec r 0) as [Hr|Hr]
  end.
  - injection Hfail as <-. repeat split; try assumption; try lia.
    eexists. split; reflexivity.
  - discriminate Hfail.
Qed.

End Failures.

(** X4: under the API's contract that the first call returns no negative
    count, every exception [Utf16FromUtf8] throws, the [std::overflow_error]
    of the length guard included, is caught by a handler for
    [std::runtime_error], the base the header gives its own error class, and
    so by one for [std::exception]. *)
Theorem every_failure_is_a_runtime_error
    {World} (api : Win32 World) (utf8 : std_string) (w : World) (e : exception) :
  0 <= fst (fst (measure api utf8 w)) ->
  fst (Utf16FromUtf8 api utf8 w) = inr e ->
  catches std_runtime_error e = true /\ catches std_exception e = true.
Proof.
  intros Hnonneg Hfail.
  destruct (Utf16FromUtf8_failure api utf8 w e Hfail)
    as [(_ & ->)|[(_ & _ & code & _ & ->)|[(_ & Hneg & _)|(_ & _ & _ & code & _ & ->)]]];
    try (split; reflexivity).
  lia.
Qed.

Lemma every_failure_is_a_runtime_error_witness :
  catches std_runtime_error
    (Utf16FromUtf8ConversionError invalid_sequence_message
       ERROR_NO_UNICODE_TRANSLATION) = true
  /\ catches std_exception
       (Utf16FromUtf8ConversionError invalid_sequence_message
          ERROR_NO_UNICODE_TRANSLATION) = true.
Proof.
  apply (every_failure_is_a_runtime_error strict_Win32 [xff] {| LastError := 0 |}).
  - vm_compute. discriminate.
  - reflexivity.
Defined.

(** X5: message and code of a thrown error agree: the exception is of the
    [InvalidUtf8Sequence] kind (it says "Invalid UTF-8 sequence found in
    input string.") exactly when its [ErrorCode()] is
    [ERROR_NO_UNICODE_TRANSLATION]. *)
Theorem invalid_sequence_iff_no_unicode_translation
    {World} (api : Win32 World) (utf8 : std_string) (w : World) (e : exception) :
  fst (Utf16FromUtf8 api utf8 w) = inr e ->
  (error_kind e = Some InvalidUtf8Sequence
   <-> ErrorCode e = Some ERROR_NO_UNICODE_TRANSLATION).
Proof.
  intros Hfail.
  destruct (Utf16FromUtf8_failure api utf8 w e Hfail)
    as [(_ & ->)|[(_ & _ & code & _ & ->)|[(_ & _ & ->)|(_ & _ & _ & code & _ & ->)]]].
  - split; discriminate.
  - rewrite conversion_error_kind. cbn [ErrorCode].
    destruct (Z.eqb_spec code ERROR_NO_UNICODE_TRANSLATION) as [Heq|Hother].
    + rewrite Heq. split; reflexivity.
    + split; [discriminate|]. intros H. injection H as H. contradiction.
  - split; discriminate.
  - rewrite conversion_error_kind. cbn [ErrorCode].
    destruct (Z.eqb_spec code ERROR_NO_UNICODE_TRANSLATION) as [Heq|Hother].
    + rewrite Heq. split; reflexivity.
    + split; [discriminate|]. intros H. injection H as H. contradiction.
Qed.

Lemma invalid_sequence_iff_no_unicode_translation_witness :
  error_kind
    (Utf16FromUtf8ConversionError convert_failed_message
       ERROR_INSUFFICIENT_BUFFER) = Some InvalidUtf8Sequence
  <-> ErrorCode
        (Utf16FromUtf8ConversionError convert_failed_message
           ERROR_INSUFFICIENT_BUFFER) = Some ERROR_NO_UNICODE_TRANSLATION.
Proof.
  apply (invalid_sequence_iff_no_unicode_translation
           shrinking_Win32 japan {| LastError := 0 |}).
  reflexivity.
Defined.

(** X6: under the API's contract that the first call returns no negative
    count, every failure is of one of the four kinds, and the kind tells the
    cause: [InputTooLarge] exactly when the length exceeds [INT_MAX],
    [MeasurementFailed] only when the first call returned 0,
    [ConversionFailed] only when the first call returned a positive count
    and the second returned 0, and [InvalidUtf8Sequence] only when one of
    the two calls returned 0. *)
Theorem failure_kind_tells_the_cause
    {World} (api : Win32 World) (utf8 : std_string) (w : World) (e : exception) :
  0 <= fst (fst (measure api utf8 w)) ->
  fst (Utf16FromUtf8 api utf8 w) = inr e ->
  exists k,
    error_kind e = Some k
    /\ (k = InputTooLarge <-> length utf8 > numeric_limits_int_max)
    /\ (k = MeasurementFailed -> fst (fst (measure api utf8 w)) = 0)
    /\ (k = ConversionFailed ->
        0 < fst (fst (measure api utf8 w))
        /\ fst (fst (fill api utf8 (fst (fst (measure api utf8 w)))
                       (snd (measure api utf8 w)))) = 0)
    /\ (k = InvalidUtf8Sequence ->
        fst (fst (measure api utf8 w)) = 0
        \/ fst (fst (fill api utf8 (fst (fst (measure api utf8 w)))
                       (snd (measure api utf8 w)))) = 0).
Proof.
  intros Hnonneg Hfail.
  destruct (Utf16FromUtf8_failure api utf8 w e Hfail)
    as [(Hlong & ->)
       |[(Hle & Hz & code & _ & ->)
        |[(_ & Hneg & _)
         |(Hle & Hpos & Hr & code & _ & ->)]]].
  - exists InputTooLarge. split; [reflexivity|].
    repeat split; try discriminate; auto.
  - rewrite conversion_error_kind.
    destruct (code =? ERROR_NO_UNICODE_TRANSLATION).
    + exists InvalidUtf8Sequence. split; [reflexivity|].
      repeat split; try discriminate; auto; intros; lia.
    + exists MeasurementFailed. split; [reflexivity|].
      repeat split; try discriminate; auto; intros; lia.
  - lia.
  - rewrite conversion_error_kind.
    destruct (code =? ERROR_NO_UNICODE_TRANSLATION).
    + exists InvalidUtf8Sequence. split; [reflexivity|].
      repeat split; try discriminate; auto; intros; lia.
    + exists ConversionFailed. split; [reflexivity|].
      repeat split; try discriminate; auto; intros; lia.
Qed.

Lemma failure_kind_tells_the_cause_witness :
  exists k,
    error_kind
      (Utf16FromUtf8ConversionError convert_failed_message
         ERROR_INSUFFICIENT_BUFFER) = Some k
    /\ (k = InputTooLarge <-> length japan > numeric_limits_int_max)
    /\ (k = MeasurementFailed ->
        fst (fst (measure shrinking_Win32 japan {| LastError := 0 |})) = 0)
    /\ (k = ConversionFailed ->
        0 < fst (fst (measure shrinking_Win32 japan {| LastError := 0 |}))
        /\ fst (fst (fill shrinking_Win32 japan
                       (fst (fst (measure shrinking_Win32 japan
                                    {| LastError := 0 |})))
                       (snd (measure shrinking_Win32 japan
                               {| LastError := 0 |})))) = 0)
    /\ (k = InvalidUtf8Sequence ->
        fst (fst (measure shrinking_Win32 japan {| LastError := 0 |})) = 0
        \/ fst (fst (fill shrinking_Win32 japan
                       (fst (fst (measure shrinking_Win32 japan
                                    {| LastError := 0 |})))
                       (snd (measure shrinking_Win32 japan
                               {| LastError := 0 |})))) = 0).
Proof.
  apply (failure_kind_tells_the_cause shrinking_Win32 japan {| LastError := 0 |}).
  - vm_compute. discriminate.
  - reflexivity.
Defined.

(** ** The demonstration program *)

Lemma main_strings :
  std_string_from_c_str [x4a; x61; x70; x61; x6e; x00]
  = [x4a; x61; x70; x61; x6e]
  /\ std_string_from_c_str [xe6; x97; xa5; xe6; x9c; xac; x00] = japan.
Proof. split; reflexivity. Qed.

(** X7: [main] sets the standard output to [_O_U16TEXT] and prints whole
    lines only.  If the conversion of "Japan" throws, the exception leaves
    [main] and nothing has been inserted into [std::wcout]; if the second
    conversion throws, the exception leaves [main] after the first line and
    its two newlines; otherwise [main] returns 0 after both lines.  In each
    case the state of the API is the one the last conversion left. *)
Theorem main_prints_whole_lines
    {World} (api : Win32 World) (out : Stdout) (w : World) :
  let first := Utf16FromUtf8 api [x4a; x61; x70; x61; x6e] w in
  let second := Utf16FromUtf8 api japan (snd first) in
  main api (out, w) =
  match fst first with
  | inr e =>
      (inr e,
       ({| translation_mode := _O_U16TEXT; wcout := wcout out |}, snd first))
  | inl line1 =>
      match fst second with
      | inr e =>
          (inr e,
           ({| translation_mode := _O_U16TEXT;
               wcout := wcout out ++ line1 ++ [0x0A; 0x0A] |}, snd second))
      | inl line2 =>
          (inl 0,
           ({| translation_mode := _O_U16TEXT;
               wcout := wcout out ++ line1 ++ [0x0A; 0x0A] ++ line2 ++ [0x0A] |},
            snd second))
      end
  end.
Proof.
  cbv zeta. unfold main. destruct main_strings as [-> ->].
  unfold bind, _setmode_stdout, on_api, wcout_insert, ret. cbn [fst snd].
  destruct (Utf16FromUtf8 api [x4a; x61; x70; x61; x6e] w) as [[line1|e1] w1];
    cbn [fst snd]; [|reflexivity].
  destruct (Utf16FromUtf8 api japan w1) as [[line2|e2] w2];
    cbn [fst snd wcout translation_mode]; [|rewrite <- app_assoc; reflexivity].
  rewrite <- !app_assoc. reflexivity.
Qed.

(** ** The state after a success *)

Lemma strict_Win32_quiet_on_success : quiet_on_success strict_Win32.
Proof.
  intros cp fl s cb dst cch w.
  cbn [MultiByteToWideChar strict_Win32].
  unfold strict_MultiByteToWideChar. cbv zeta beta.
  destruct (negb (cp =? CP_UTF8)); [cbn [fst]; congruence|].
  destruct (negb (fl =? MB_ERR_INVALID_CHARS)); [cbn [fst]; congruence|].
  destruct ((cb <=? 0) || (cch <? 0) || (length s <? cb));
    [cbn [fst]; congruence|].
  destruct (decode_utf8 (firstn (Z.to_nat cb) s)) as [cps|];
    [|cbn [fst]; congruence].
  destruct (cch =? 0); [reflexivity|].
  destruct dst as [b|]; [|cbn [fst]; congruence].
  destruct ((cch <? Z.of_nat (List.length (utf16_encode cps)))
            || (Z.of_nat (List.length b)
                <? Z.of_nat (List.length (utf16_encode cps))));
    [cbn [fst]; congruence|reflexivity].
Qed.

(** X8: [Utf16FromUtf8] changes the state of the API only through its two
    calls: with an implementation whose successful calls leave the state
    alone, a conversion that returns a string leaves the state, and so the
    thread's last-error code, exactly as it found it. *)
Theorem success_leaves_the_state
    {World} (api : Win32 World) (utf8 : std_string) (w : World)
    (utf16 : std_wstring) :
  quiet_on_success api ->
  fst (Utf16FromUtf8 api utf8 w) = inl utf16 ->
  snd (Utf16FromUtf8 api utf8 w) = w.
Proof.
  intros Hquiet Hok.
  destruct utf8 as [|b rest]; [reflexivity|].
  destruct (Z_gt_le_dec (length (b :: rest)) numeric_limits_int_max)
    as [Hlong|Hle].
  { rewrite Utf16FromUtf8_too_long by exact Hlong. reflexivity. }
  rewrite (Utf16FromUtf8_in_range api (b :: rest) w) in Hok |- *
    by (discriminate || exact Hle).
  cbv zeta in Hok |- *.
  destruct (Z.eqb_spec (fst (fst (measure api (b :: rest) w))) 0) as [Hz|Hnz];
    [discriminate Hok|].
  destruct (fst (fst (measure api (b :: rest) w)) <? 0); [discriminate Hok|].
  assert (Hfirst : snd (measure api (b :: rest) w) = w)
    by (unfold measure in *; apply Hquiet; exact Hnz).
  rewrite Hfirst in Hok |- *.
  destruct (Z.eqb_spec
              (fst (fst (fill api (b :: rest)
                           (fst (fst (measure api (b :: rest) w))) w))) 0)
    as [Hr|Hr]; [discriminate Hok|].
  cbn [snd]. unfold fill in *. apply Hquiet. exact Hr.
Qed.

Lemma success_leaves_the_state_witness :
  snd (Utf16FromUtf8 strict_Win32 japan {| LastError := ERROR_INVALID_FLAGS |})
  = {| LastError := ERROR_INVALID_FLAGS |}.
Proof.
  apply (success_leaves_the_state strict_Win32 japan
           {| LastError := ERROR_INVALID_FLAGS |} [0x65E5; 0x672C]).
  - exact strict_Win32_quiet_on_success.
  - reflexivity.
Defined.

(** ** All or nothing, for every implementation *)

Lemma skipn_repeat_zeros (k m : nat) :
  skipn k (repeat 0 m) = repeat 0 (m - k).
Proof.
  revert m. induction k as [|k IH]; intros m.
  - rewrite Nat.sub_0_r. reflexivity.
  - destruct m as [|m]; [reflexivity|]. cbn [repeat skipn Nat.sub]. apply IH.
Qed.

Lemma strict_Win32_sound_when_nonzero : sound_when_nonzero strict_Win32.
Proof.
  intros utf8 Hne Hle. split.
  - intros w Hn. rewrite (strict_measure utf8 w Hne Hle) in Hn |- *.
    destruct (decode_utf8 utf8) as [cps|]; cbn [fst] in Hn |- *;
      [|congruence].
    exists cps. split; reflexivity.
  - intros n w Hpos.
    pose proof (nonempty_length_positive utf8 Hne) as Hlen.
    unfold fill. cbn [MultiByteToWideChar strict_Win32].
    unfold strict_MultiByteToWideChar. cbv zeta beta.
    rewrite static_cast_int_in_range by lia.
    rewrite !Z.eqb_refl. cbn [negb].
    destruct (Z.leb_spec (length utf8) 0) as [Hbad|_]; [lia|].
    destruct (Z.ltb_spec n 0) as [Hbad|_]; [lia|].
    rewrite Z.ltb_irrefl. cbn [orb].
    unfold length. rewrite Nat2Z.id, firstn_all.
    destruct (decode_utf8 utf8) as [cps|]; [|cbn [fst]; congruence].
    destruct (Z.eqb_spec n 0) as [Hbad|_]; [lia|].
    rewrite repeat_length.
    destruct ((n <? Z.of_nat (List.length (utf16_encode cps)))
              || (Z.of_nat (Z.to_nat n)
                  <? Z.of_nat (List.length (utf16_encode cps)))) eqn:Hsmall;
      [cbn [fst]; congruence|].
    apply orb_false_elim in Hsmall. destruct Hsmall as [Hfits _].
    apply Z.ltb_ge in Hfits. cbn [fst snd]. intros _.
    exists cps. repeat split; [exact Hfits|].
    rewrite skipn_repeat_zeros. reflexivity.
Qed.

Lemma shrinking_Win32_sound_when_nonzero : sound_when_nonzero shrinking_Win32.
Proof.
  intros utf8 Hne Hle. split.
  - intros w Hn.
    destruct (strict_Win32_sound_when_nonzero utf8 Hne Hle) as [Hmeasure _].
    exact (Hmeasure w Hn).
  - intros n w Hpos Hr. exfalso. apply Hr.
    unfold fill. cbn [MultiByteToWideChar shrinking_Win32].
    unfold shrinking_MultiByteToWideChar.
    destruct (Z.eqb_spec n 0) as [Hbad|_]; [lia|]. reflexivity.
Qed.

(** C8: a call ends in exactly one of two ways, whatever the implementation
    of the API, provided that a call of it that reports a count has counted
    or written the whole encoding of the input.  Either [Utf16FromUtf8]
    returns a string: then both calls reported a count, the input was
    well-formed UTF-8, and the string is the whole UTF-16 encoding of its
    scalar values, well-formed, with exactly the length the first call
    measured: nothing cut off, no zero left over from [resize].  Or it
    throws: then the input was too long, or the first call returned 0, or
    the second call returned 0, and the outcome is the exception alone; the
    destination, filled or not, is not part of it. *)
Theorem result_is_whole_or_nothing
    {World} (api : Win32 World) (utf8 : std_string) (w : World) :
  sound_when_nonzero api ->
  match fst (Utf16FromUtf8 api utf8 w) with
  | inl utf16 =>
      (exists cps,
          decode_utf8 utf8 = Some cps
          /\ utf16 = utf16_encode cps
          /\ well_formed_utf16 utf16 = true)
      /\ (utf8 <> [] ->
          Z.of_nat (List.length utf16) = fst (fst (measure api utf8 w))
          /\ fst (fst (fill api utf8 (fst (fst (measure api utf8 w)))
                         (snd (measure api utf8 w)))) <> 0)
  | inr e =>
      length utf8 > numeric_limits_int_max
      \/ (length utf8 <= numeric_limits_int_max
          /\ fst (fst (measure api utf8 w)) = 0)
      \/ (length utf8 <= numeric_limits_int_max
          /\ 0 < fst (fst (measure api utf8 w))
          /\ fst (fst (fill api utf8 (fst (fst (measure api utf8 w)))
                         (snd (measure api utf8 w)))) = 0)
  end.
Proof.
  intros Hsound.
  destruct utf8 as [|b rest].
  { rewrite Utf16FromUtf8_empty. cbn [fst]. split.
    - exists []. repeat split; reflexivity.
    - intros Hne. congruence. }
  destruct (Z_gt_le_dec (length (b :: rest)) numeric_limits_int_max)
    as [Hlong|Hle].
  { rewrite Utf16FromUtf8_too_long by exact Hlong. cbn [fst]. left. exact Hlong. }
  assert (Hne : b :: rest <> []) by discriminate.
  destruct (Hsound (b :: rest) Hne Hle) as [Hmeasure Hfill].
  rewrite (Utf16FromUtf8_in_range api (b :: rest) w Hne Hle). cbv zeta.
  set (n := fst (fst (measure api (b :: rest) w))) in *.
  set (w1 := snd (measure api (b :: rest) w)) in *.
  destruct (Z.eqb_spec n 0) as [Hz|Hnz].
  { cbn [fst]. right. left. split; assumption. }
  destruct (Hmeasure w Hnz) as (cps & Hdec & Hcount). fold n in Hcount.
  destruct (Z.ltb_spec n 0) as [Hneg|Hpos]; [lia|].
  assert (Hn : 0 < n) by lia.
  destruct (Z.eqb_spec (fst (fst (fill api (b :: rest) n w1))) 0) as [Hr|Hr].
  { cbn [fst]. right. right. repeat split; assumption. }
  cbn [fst].
  destruct (Hfill n w1 Hn Hr) as (cps' & Hdec' & _ & Hbuffer).
  rewrite Hdec in Hdec'. injection Hdec' as <-.
  replace (Z.to_nat n - List.length (utf16_encode cps))%nat with O in Hbuffer
    by lia.
  cbn [repeat] in Hbuffer. rewrite app_nil_r in Hbuffer.
  rewrite Hbuffer. split.
  - exists cps. repeat split; [exact Hdec|].
    apply well_formed_utf16_encode.
    apply (decode_utf8_scalar (List.length (b :: rest)) (b :: rest) cps);
      [apply Nat.le_refl|exact Hdec].
  - intros _. split; [symmetry; exact Hcount|exact Hr].
Qed.

Lemma result_is_whole_or_nothing_witness :
  ((exists cps,
       decode_utf8 japan = Some cps
       /\ [0x65E5; 0x672C] = utf16_encode cps
       /\ well_formed_utf16 [0x65E5; 0x672C] = true)
   /\ (japan <> [] ->
       Z.of_nat (List.length [0x65E5; 0x672C])
       = fst (fst (measure strict_Win32 japan {| LastError := 0 |}))
       /\ fst (fst (fill strict_Win32 japan
                      (fst (fst (measure strict_Win32 japan {| LastError := 0 |})))
                      (snd (measure strict_Win32 japan {| LastError := 0 |}))))
          <> 0))
  /\ (length japan > numeric_limits_int_max
      \/ (length japan <= numeric_limits_int_max
          /\ fst (fst (measure shrinking_Win32 japan {| LastError := 0 |})) = 0)
      \/ (length japan <= numeric_limits_int_max
          /\ 0 < fst (fst (measure shrinking_Win32 japan {| LastError := 0 |}))
          /\ fst (fst (fill shrinking_Win32 japan
                         (fst (fst (measure shrinking_Win32 japan
                                      {| LastError := 0 |})))
                         (snd (measure shrinking_Win32 japan
                                 {| LastError := 0 |})))) = 0)).
Proof.
  split.
  - exact (result_is_whole_or_nothing strict_Win32 japan {| LastError := 0 |}
             strict_Win32_sound_when_nonzero).
  - exact (result_is_whole_or_nothing shrinking_Win32 japan {| LastError := 0 |}
             shrinking_Win32_sound_when_nonzero).
Defined.
